(** * Decorator registration of the LWC engine

    A shallow embedding of
    [packages/@lwc/engine/src/framework/decorators/register.ts]:
    the development-mode validators, [registerDecorators], and the class
    metadata registry ([setDecoratorsMeta] / [getDecoratorsMeta]).

    JavaScript objects that the code only reads (the compiler metadata) are
    ordered records; the objects it mutates (the class prototype, the
    registry [Map], the wiring table) live in an explicit [State] that is
    threaded through an exception monad, so that the state reached when a
    validation aborts is observable.

    Conventions of the model:
    - a metadata object is a plain object literal: all its properties are
      own and enumerable, and [for ... in] visits them in the order of
      OrdinaryOwnPropertyKeys (array-index names first, ascending, then the
      other names in creation order);
    - a property descriptor is complete (every attribute present), as
      [getOwnPropertyDescriptor] returns it and as the descriptor factories
      of the framework build it;
    - numbers are integers, functions are named closures, constructors are
      references;
    - a getter that a property read runs is code of the component author: it
      observes the state and either returns a value or throws; it is taken
      not to write to the prototypes, the registry or the wiring table;
    - the modules register.ts imports but that are not at hand ([./api],
      [./wire], [./track]) are a parameter, [Collaborators]; the calls into
      [../wiring] are recorded in the state. *)

From Stdlib Require Import ZArith NArith Ascii.
From stdpp Require Import base option list strings gmap sorting.

Local Open Scope string_scope.
Local Open Scope list_scope.

(** ** Values *)

(** Function objects. [Authored] closures are written by the component
    author (methods, hand-written getters and setters, adapters, config
    callbacks); the other constructors name the getters and setters that the
    descriptor factories of the framework hand out. *)
Inductive Closure : Type :=
| Authored (label : string)
| PublicFieldGetter (key : string)
| PublicFieldSetter (key : string)
| PublicAccessorGetter (key : string) (original : Closure)
| PublicAccessorSetter (key : string) (original : Closure)
| PublicAccessorNoSetter (key : string)
| TrackGetter (key : string)
| TrackSetter (key : string)
| WireGetter (key : string)
| WireSetter (key : string).

Global Instance Closure_eq_dec : EqDecision Closure.
Proof. solve_decision. Defined.

(** The JavaScript values the registration code inspects. Numbers are the
    integral ones the compiler emits ([method: 1], [config: 0..3]). *)
Inductive Value : Type :=
| VUndefined
| VNull
| VBoolean (b : bool)
| VNumber (n : Z)
| VString (s : string)
| VFunction (f : Closure)
| VObject (ref : positive).

Global Instance Value_eq_dec : EqDecision Value.
Proof. solve_decision. Defined.

(** [isUndefined], [isFunction], [isFalse] of [shared/language]. *)
Definition isUndefined (v : Value) : bool :=
  match v with VUndefined => true | _ => false end.

Definition isFunction (v : Value) : bool :=
  match v with VFunction _ => true | _ => false end.

Definition isFalse (v : Value) : bool :=
  match v with VBoolean false => true | _ => false end.

(** [a === b] on the values above. *)
Definition strictEquals (a b : Value) : bool := bool_decide (a = b).

(** ** Property descriptors and prototype objects *)

(** A complete property descriptor, as [getOwnPropertyDescriptor] returns
    it: either a data descriptor or an accessor descriptor. *)
Inductive PropertyDescriptor : Type :=
| DataDescriptor (value : Value) (writable enumerable configurable : bool)
| AccessorDescriptor (get set : Value) (enumerable configurable : bool).

Global Instance PropertyDescriptor_eq_dec : EqDecision PropertyDescriptor.
Proof. solve_decision. Defined.

(** Reading [descriptor.value], [.writable], [.get], [.set]: a field the
    descriptor does not carry reads as [undefined]. *)
Definition desc_value (d : PropertyDescriptor) : Value :=
  match d with DataDescriptor v _ _ _ => v | AccessorDescriptor _ _ _ _ => VUndefined end.

Definition desc_writable (d : PropertyDescriptor) : Value :=
  match d with DataDescriptor _ w _ _ => VBoolean w | AccessorDescriptor _ _ _ _ => VUndefined end.

Definition desc_get (d : PropertyDescriptor) : Value :=
  match d with DataDescriptor _ _ _ _ => VUndefined | AccessorDescriptor g _ _ _ => g end.

Definition desc_set (d : PropertyDescriptor) : Value :=
  match d with DataDescriptor _ _ _ _ => VUndefined | AccessorDescriptor _ s _ _ => s end.

Definition desc_enumerable (d : PropertyDescriptor) : bool :=
  match d with DataDescriptor _ _ e _ | AccessorDescriptor _ _ e _ => e end.

Definition desc_configurable (d : PropertyDescriptor) : bool :=
  match d with DataDescriptor _ _ _ c | AccessorDescriptor _ _ _ c => c end.

(** An ordinary object seen through its own string-keyed properties. *)
Record Obj : Type := mkObj {
  own : gmap string PropertyDescriptor;
  extensible : bool;
}.

Global Instance Obj_inhabited : Inhabited Obj := populate (mkObj ∅ true).

(** Exceptions: [Error] is what the [assert] helpers raise, [TypeError] is
    what the language raises. *)
Inductive Exception : Type :=
| Error (message : string)
| TypeError (message : string).

(** [Object.defineProperty(O, P, Desc)] for a complete descriptor [Desc]
    (ValidateAndApplyPropertyDescriptor): a new property needs an extensible
    object; a configurable property is replaced; a non-configurable one only
    accepts a descriptor that changes nothing it protects. [None] stands for
    the [TypeError]. *)
Definition defineProperty (O : Obj) (P : string) (Desc : PropertyDescriptor) : option Obj :=
  let installed := Some (mkObj (<[P := Desc]> (own O)) (extensible O)) in
  match own O !! P with
  | None => if extensible O then installed else None
  | Some current =>
      if desc_configurable current then installed
      else if desc_configurable Desc then None
      else if negb (eqb (desc_enumerable Desc) (desc_enumerable current)) then None
      else
        match current, Desc with
        | DataDescriptor v w _ _, DataDescriptor v' w' _ _ =>
            if w then installed
            else if w' then None
            else if bool_decide (v = v') then installed else None
        | AccessorDescriptor g s _ _, AccessorDescriptor g' s' _ _ =>
            if bool_decide (g = g' ∧ s = s') then installed else None
        | _, _ => None
        end
  end.

(** ** Compiler metadata *)

(** A plain object used as a record ([Record<string, V>]): its own
    enumerable properties in the order they were created, which for the
    object literals the compiler emits is the order of declaration.
    Property names of an object are pairwise distinct; statements that need
    this say so with [NoDup (keys r)]. *)
Abbreviation JsRecord V := (list (string * V)).

Definition keys {V} (r : JsRecord V) : list string := fst <$> r.

(** Array indices: canonical numeric strings below 2^32 - 1. *)
Definition digitValue (a : ascii) : option N :=
  let n := N_of_ascii a in
  if ((48 <=? n) && (n <=? 57))%N then Some (n - 48)%N else None.

Fixpoint decimal (s : string) (acc : N) : option N :=
  match s with
  | EmptyString => Some acc
  | String a rest =>
      match digitValue a with
      | Some d => decimal rest (10 * acc + d)%N
      | None => None
      end
  end.

Definition arrayIndex (s : string) : option N :=
  match s with
  | EmptyString => None
  | String "0"%char EmptyString => Some 0%N
  | String "0"%char _ => None
  | _ =>
      match decimal s 0 with
      | Some n => if (n <? 2 ^ 32 - 1)%N then Some n else None
      | None => None
      end
  end.

Definition index_le {V} (a b : N * (string * V)) : Prop := (a.1 ≤ b.1)%N.

Global Instance index_le_dec {V} : RelDecision (@index_le V).
Proof. intros a b. unfold index_le. apply _. Defined.

Definition indexed {V} (r : JsRecord V) : list (N * (string * V)) :=
  omap (λ kv, match arrayIndex kv.1 with Some i => Some (i, kv) | None => None end) r.

(** The properties in the order [for (const k in r)] visits them
    (OrdinaryOwnPropertyKeys): array-index names first, in ascending numeric
    order, then every other name in creation order. *)
Definition forInEntries {V} (r : JsRecord V) : JsRecord V :=
  (snd <$> merge_sort index_le (indexed r))
  ++ filter (λ kv, arrayIndex kv.1 = None) r.

Definition forInKeys {V} (r : JsRecord V) : list string := keys (forInEntries r).

(** [enum PropType]: the constructors and the numbers they compile to. *)
Inductive PropType : Type := Field | Set_ | Get | GetSet.

Definition PropType_value (t : PropType) : Z :=
  match t with Field => 0 | Set_ => 1 | Get => 2 | GetSet => 3 end.

Module PropCompilerDef.
Record t : Type := mk { config : PropType; type : string }.
End PropCompilerDef.

(** [method?: number] is read as a value: [VUndefined] when the compiler
    left it out. *)
Module WireCompilerDef.
Record t : Type := mk { method : Value; adapter : Value; config : Value }.
End WireCompilerDef.

(** The five optional categories; [None] is an absent property. *)
Module RegisterDecoratorMeta.
Record t : Type := mk {
  publicMethods : option (list string);
  publicProps : option (JsRecord PropCompilerDef.t);
  track : option (JsRecord Value);
  wire : option (JsRecord WireCompilerDef.t);
  fields : option (list string);
}.
Definition empty : t := mk None None None None None.
End RegisterDecoratorMeta.

(** [interface DecoratorMeta]. The optional [fields] property is either
    missing from the object ([NoEntry]) or present, holding [undefined]
    ([Entry None]) or an array. *)
Inductive FieldsEntry : Type :=
| NoEntry
| Entry (v : option (list string)).

Module DecoratorMeta.
Record t : Type := mk {
  apiMethods : list string;
  apiFields : list string;
  wiredMethods : list string;
  wiredFields : list string;
  fields : FieldsEntry;
}.
End DecoratorMeta.

(** ** The mutable world *)

(** Component constructors are object references. *)
Abbreviation ComponentConstructor := positive.

(** What the wiring subsystem receives: one record per call of
    [storeWiredMethodMeta] or [storeWiredFieldMeta], with its arguments. *)
Inductive WiringCall : Type :=
| StoreWiredMethodMeta (Ctor : ComponentConstructor) (methodName : string)
    (adapter method configCallback : Value)
| StoreWiredFieldMeta (Ctor : ComponentConstructor) (fieldName : string)
    (adapter configCallback : Value).

Record State : Type := mkState {
  (** [Ctor.prototype] for every constructor *)
  prototypes : gmap positive Obj;
  (** the module-level [Map] of register.ts *)
  signedDecoratorToMetaMap : gmap positive DecoratorMeta.t;
  (** the calls received by the wiring subsystem, oldest first *)
  wiring : list WiringCall;
}.

Definition prototype (s : State) (Ctor : ComponentConstructor) : Obj :=
  prototypes s !!! Ctor.

(** ** Computations: state that survives an exception *)

Inductive Completion (A : Type) : Type :=
| Normal (a : A)
| Throw (e : Exception).
Arguments Normal {A} a.
Arguments Throw {A} e.

Definition M (A : Type) : Type := State → Completion A * State.

Global Instance M_ret : MRet M := λ A a s, (Normal a, s).

Global Instance M_bind : MBind M := λ A B f m s,
  match m s with
  | (Normal a, s') => f a s'
  | (Throw e, s') => (Throw e, s')
  end.

Definition throw {A} (e : Exception) : M A := λ s, (Throw e, s).

Fixpoint forEachM {A L} (body : A → L → M L) (xs : list A) (acc : L) : M L :=
  match xs with
  | [] => mret acc
  | x :: rest => acc' ← body x acc; forEachM body rest acc'
  end.

(** [if (!isUndefined(x)) { loop over x }] around a loop with accumulator. *)
Definition whenDefined {A L} (x : option A) (loop : A → L → M L) (acc : L) : M L :=
  match x with
  | Some a => loop a acc
  | None => mret acc
  end.

(** [ArrayPush.call(arr, x)] on a local array. *)
Definition ArrayPush {A} (arr : list A) (x : A) : list A := arr ++ [x].

(** Modelled from the spec: the [assert] helpers of [shared/assert] are not
    part of the sources at hand; a violation "fails immediately and
    unconditionally" with the diagnostic it is given. *)
Definition assert_fail (msg : string) : M unit := throw (Error msg).

Definition assert_isTrue (value : bool) (msg : string) : M unit :=
  if value then mret () else throw (Error msg).

Definition getOwnPropertyDescriptor (Ctor : ComponentConstructor) (P : string)
  : M (option PropertyDescriptor) :=
  λ s, (Normal (own (prototype s Ctor) !! P), s).

(** The [TypeError] of a refused [Object.defineProperty(O, P, _)], with the
    message of V8: one text for a new property on an object that is not
    extensible, another for an own property that cannot be redefined. *)
Definition definePropertyError (O : Obj) (P : string) : Exception :=
  match own O !! P with
  | None => TypeError ("Cannot define property " +:+ P +:+ ", object is not extensible")
  | Some _ => TypeError ("Cannot redefine property: " +:+ P)
  end.

(** [defineProperty(Ctor.prototype, P, Desc)]. *)
Definition definePropertyOnPrototype (Ctor : ComponentConstructor) (P : string)
    (Desc : PropertyDescriptor) : M unit :=
  λ s, match defineProperty (prototype s Ctor) P Desc with
       | Some O' =>
           (Normal (),
            mkState (<[Ctor := O']> (prototypes s)) (signedDecoratorToMetaMap s) (wiring s))
       | None => (Throw (definePropertyError (prototype s Ctor) P), s)
       end.

(** Modelled from the spec: [storeWiredMethodMeta] and [storeWiredFieldMeta]
    of [../wiring] are not part of the sources at hand; they "register, in an
    external per-class wiring table, the tuple" they are given. The table is
    kept as the sequence of tuples received. *)
Definition storeWiredMethodMeta (Ctor : ComponentConstructor) (methodName : string)
    (adapter method configCallback : Value) : M unit :=
  λ s, (Normal (),
        mkState (prototypes s) (signedDecoratorToMetaMap s)
          (wiring s ++ [StoreWiredMethodMeta Ctor methodName adapter method configCallback])).

Definition storeWiredFieldMeta (Ctor : ComponentConstructor) (fieldName : string)
    (adapter configCallback : Value) : M unit :=
  λ s, (Normal (),
        mkState (prototypes s) (signedDecoratorToMetaMap s)
          (wiring s ++ [StoreWiredFieldMeta Ctor fieldName adapter configCallback])).

(** What register.ts imports from [./api], [./wire] and [./track], and what
    it asks of the host: the descriptor factories, the source text a
    constructor prints as, and the two ways an ordinary property read leaves
    the own data properties of the prototype: the lookup of a missing name
    along the prototype chain (which may end in an inherited getter) and the
    run of an own getter with the prototype as receiver. Either one may
    depend on the state and may throw. None of them is part of the sources
    at hand, so the development is parametric in them. *)
Class Collaborators : Type := {
  createPublicPropertyDescriptor : string → PropertyDescriptor;
  createPublicAccessorDescriptor :
    string → option PropertyDescriptor → Exception + PropertyDescriptor;
  internalWireFieldDecorator : string → PropertyDescriptor;
  internalTrackDecorator : string → PropertyDescriptor;
  ctorToString : ComponentConstructor → string;
  inheritedMember : ComponentConstructor → string → State → Exception + Value;
  callGetter : Closure → ComponentConstructor → State → Exception + Value;
}.

(** ** register.ts *)

Section Register.
Context `{!Collaborators}.

(** [process.env.NODE_ENV === 'production'] *)
Variable production : bool.

(** An ordinary property read [O[name]] in state [s], where [O] is the
    prototype of [Ctor]: an own data property yields its value, an own
    accessor runs its getter (and yields [undefined] when it has none), a
    missing property is looked up along the prototype chain. The result is
    the value read ([inr]) or the exception the getter threw ([inl]). *)
Definition ordinaryGet (Ctor : ComponentConstructor) (O : Obj) (name : string) (s : State)
  : Exception + Value :=
  match own O !! name with
  | Some (DataDescriptor v _ _ _) => inr v
  | Some (AccessorDescriptor (VFunction getter) _ _ _) => callGetter getter Ctor s
  | Some (AccessorDescriptor _ _ _ _) => inr VUndefined
  | None => inheritedMember Ctor name s
  end.

(** [proto[name]] on the prototype of [Ctor]. *)
Definition protoGet (Ctor : ComponentConstructor) (name : string) : M Value :=
  λ s, match ordinaryGet Ctor (prototype s Ctor) name s with
       | inr v => (Normal v, s)
       | inl e => (Throw e, s)
       end.

Definition validateObservedField (Ctor : ComponentConstructor) (fieldName : string) : M unit :=
  if negb production then
    descriptor ← getOwnPropertyDescriptor Ctor fieldName;
    match descriptor with
    | Some _ => assert_fail ("Compiler Error: Invalid field " +:+ fieldName +:+ " declaration.")
    | None => mret ()
    end
  else mret ().

Definition validateFieldDecoratedWithTrack (Ctor : ComponentConstructor) (fieldName : string)
  : M unit :=
  if negb production then
    descriptor ← getOwnPropertyDescriptor Ctor fieldName;
    match descriptor with
    | Some _ =>
        assert_fail ("Compiler Error: Invalid @track " +:+ fieldName +:+ " declaration.")
    | None => mret ()
    end
  else mret ().

Definition validateFieldDecoratedWithWire (Ctor : ComponentConstructor) (fieldName : string)
  : M unit :=
  if negb production then
    descriptor ← getOwnPropertyDescriptor Ctor fieldName;
    match descriptor with
    | Some _ =>
        assert_fail
          ("Compiler Error: Invalid @wire(...) " +:+ fieldName +:+ " field declaration.")
    | None => mret ()
    end
  else mret ().

(** The condition shared by the two method validators:
    [isUndefined(descriptor) || !isFunction(descriptor.value) ||
     isFalse(descriptor.writable)]. *)
Definition invalidMethodDescriptor (descriptor : option PropertyDescriptor) : bool :=
  match descriptor with
  | None => true
  | Some d => negb (isFunction (desc_value d)) || isFalse (desc_writable d)
  end.

Definition validateMethodDecoratedWithWire (Ctor : ComponentConstructor) (methodName : string)
  : M unit :=
  if negb production then
    descriptor ← getOwnPropertyDescriptor Ctor methodName;
    if invalidMethodDescriptor descriptor then
      assert_fail
        ("Compiler Error: Invalid @wire(...) " +:+ methodName +:+ " method declaration.")
    else mret ()
  else mret ().

Definition validateFieldDecoratedWithApi (Ctor : ComponentConstructor) (fieldName : string)
  : M unit :=
  if negb production then
    descriptor ← getOwnPropertyDescriptor Ctor fieldName;
    match descriptor with
    | Some _ =>
        assert_fail ("Compiler Error: Invalid @api " +:+ fieldName +:+ " field declaration.")
    | None => mret ()
    end
  else mret ().

Definition validateAccessorDecoratedWithApi (Ctor : ComponentConstructor) (fieldName : string)
  : M unit :=
  if negb production then
    descriptor ← getOwnPropertyDescriptor Ctor fieldName;
    match descriptor with
    | None =>
        assert_fail
          ("Compiler Error: Invalid @api get " +:+ fieldName +:+ " accessor declaration.")
    | Some d =>
        if isFunction (desc_set d) then
          assert_isTrue (isFunction (desc_get d))
            ("Compiler Error: Missing getter for property " +:+ fieldName
             +:+ " decorated with @api in " +:+ ctorToString Ctor
             +:+ ". You cannot have a setter without the corresponding getter.")
        else if negb (isFunction (desc_get d)) then
          assert_fail
            ("Compiler Error: Missing @api get " +:+ fieldName +:+ " accessor declaration.")
        else mret ()
    end
  else mret ().

Definition validateMethodDecoratedWithApi (Ctor : ComponentConstructor) (methodName : string)
  : M unit :=
  if negb production then
    descriptor ← getOwnPropertyDescriptor Ctor methodName;
    if invalidMethodDescriptor descriptor then
      assert_fail ("Compiler Error: Invalid @api " +:+ methodName +:+ " method declaration.")
    else mret ()
  else mret ().

Definition setDecoratorsMeta (Ctor : ComponentConstructor) (meta : DecoratorMeta.t) : M unit :=
  λ s, (Normal (),
        mkState (prototypes s) (<[Ctor := meta]> (signedDecoratorToMetaMap s)) (wiring s)).

(** Body of [for (const fieldName in publicProps)], lines 152-174. *)
Definition publicPropsBody (Ctor : ComponentConstructor)
    (entry : string * PropCompilerDef.t) (apiFields : list string) : M (list string) :=
  let '(fieldName, propConfig) := entry in
  descriptor ←
    (if bool_decide (PropType_value (PropCompilerDef.config propConfig) > 0)%Z then
       (if negb production then validateAccessorDecoratedWithApi Ctor fieldName else mret ());;
       descriptor ← getOwnPropertyDescriptor Ctor fieldName;
       match createPublicAccessorDescriptor fieldName descriptor with
       | inr descriptor => mret descriptor
       | inl e => throw e
       end
     else
       (if negb production then validateFieldDecoratedWithApi Ctor fieldName else mret ());;
       mret (createPublicPropertyDescriptor fieldName));
  let apiFields := ArrayPush apiFields fieldName in
  definePropertyOnPrototype Ctor fieldName descriptor;;
  mret apiFields.

(** Callback of [forEach.call(publicMethods, ...)], lines 177-182. *)
Definition publicMethodsBody (Ctor : ComponentConstructor)
    (methodName : string) (apiMethods : list string) : M (list string) :=
  (if negb production then validateMethodDecoratedWithApi Ctor methodName else mret ());;
  mret (ArrayPush apiMethods methodName).

(** Body of [for (const fieldOrMethodName in wire)], lines 185-212; the
    accumulator is the pair ([wiredMethods], [wiredFields]). *)
Definition wireBody (Ctor : ComponentConstructor)
    (entry : string * WireCompilerDef.t) (wired : list string * list string)
  : M (list string * list string) :=
  let '(fieldOrMethodName, def) := entry in
  let '(wiredMethods, wiredFields) := wired in
  let adapter := WireCompilerDef.adapter def in
  let method := WireCompilerDef.method def in
  let configCallback := WireCompilerDef.config def in
  if strictEquals method (VNumber 1) then
    (if negb production then validateMethodDecoratedWithWire Ctor fieldOrMethodName
     else mret ());;
    let wiredMethods := ArrayPush wiredMethods fieldOrMethodName in
    existing ← protoGet Ctor fieldOrMethodName;
    storeWiredMethodMeta Ctor fieldOrMethodName adapter existing configCallback;;
    mret (wiredMethods, wiredFields)
  else
    (if negb production then validateFieldDecoratedWithWire Ctor fieldOrMethodName
     else mret ());;
    storeWiredFieldMeta Ctor fieldOrMethodName adapter configCallback;;
    let wiredFields := ArrayPush wiredFields fieldOrMethodName in
    definePropertyOnPrototype Ctor fieldOrMethodName
      (internalWireFieldDecorator fieldOrMethodName);;
    mret (wiredMethods, wiredFields).

(** Body of [for (const fieldName in track)], lines 215-220. *)
Definition trackBody (Ctor : ComponentConstructor)
    (entry : string * Value) (_ : unit) : M unit :=
  let '(fieldName, _) := entry in
  (if negb production then validateFieldDecoratedWithTrack Ctor fieldName else mret ());;
  definePropertyOnPrototype Ctor fieldName (internalTrackDecorator fieldName).

(** Body of the loop over [fields], lines 223-227. *)
Definition fieldsBody (Ctor : ComponentConstructor) (fieldName : string) (_ : unit) : M unit :=
  if negb production then validateObservedField Ctor fieldName else mret ().

Definition registerDecorators (Ctor : ComponentConstructor) (meta : RegisterDecoratorMeta.t)
  : M ComponentConstructor :=
  let publicProps := RegisterDecoratorMeta.publicProps meta in
  let publicMethods := RegisterDecoratorMeta.publicMethods meta in
  let wire := RegisterDecoratorMeta.wire meta in
  let track := RegisterDecoratorMeta.track meta in
  let fields := RegisterDecoratorMeta.fields meta in
  apiFields ←
    whenDefined publicProps
      (λ publicProps, forEachM (publicPropsBody Ctor) (forInEntries publicProps)) [];
  apiMethods ←
    whenDefined publicMethods
      (λ publicMethods, forEachM (publicMethodsBody Ctor) publicMethods) [];
  wired ←
    whenDefined wire (λ wire, forEachM (wireBody Ctor) (forInEntries wire)) ([], []);
  whenDefined track (λ track, forEachM (trackBody Ctor) (forInEntries track)) ();;
  whenDefined fields (λ fields, forEachM (fieldsBody Ctor) fields) ();;
  setDecoratorsMeta Ctor
    (DecoratorMeta.mk apiMethods apiFields wired.1 wired.2 (Entry fields));;
  mret Ctor.

Definition defaultMeta : DecoratorMeta.t := DecoratorMeta.mk [] [] [] [] NoEntry.

Definition getDecoratorsMeta (Ctor : ComponentConstructor) (s : State) : DecoratorMeta.t :=
  match signedDecoratorToMetaMap s !! Ctor with
  | None => defaultMeta
  | Some meta => meta
  end.

End Register.

(** * Vocabulary of the properties *)

(** The own descriptor of [Ctor.prototype] under [name]. *)
Definition ownDescriptor (Ctor : ComponentConstructor) (name : string) (s : State)
  : option PropertyDescriptor :=
  own (prototype s Ctor) !! name.

(** [frames R m]: whatever [m] does, and however it completes, the state it
    leaves is [R]-related to the one it started in. *)
Definition frames (R : relation State) {A} (m : M A) : Prop :=
  ∀ s, R s (m s).2.

(** [sameOn f]: the observation [f] of the state has not changed. *)
Definition sameOn {B} (f : State → B) : relation State := λ s s', f s' = f s.

(** [aborts m s]: run from [s], [m] ends in an exception. *)
Definition aborts {A} (m : M A) (s : State) : Prop := ∃ e s', m s = (Throw e, s').

(** The diagnostics of the validators. *)
Definition apiMethodDiagnostic (methodName : string) : string :=
  "Compiler Error: Invalid @api " +:+ methodName +:+ " method declaration.".

Definition wireMethodDiagnostic (methodName : string) : string :=
  "Compiler Error: Invalid @wire(...) " +:+ methodName +:+ " method declaration.".

Definition wireFieldDiagnostic (fieldName : string) : string :=
  "Compiler Error: Invalid @wire(...) " +:+ fieldName +:+ " field declaration.".

Definition missingAccessorDiagnostic (fieldName : string) : string :=
  "Compiler Error: Invalid @api get " +:+ fieldName +:+ " accessor declaration.".

Definition missingGetterDiagnostic `{!Collaborators}
    (Ctor : ComponentConstructor) (fieldName : string) : string :=
  "Compiler Error: Missing getter for property " +:+ fieldName
  +:+ " decorated with @api in " +:+ ctorToString Ctor
  +:+ ". You cannot have a setter without the corresponding getter.".

(** A descriptor the accessor validator rejects. *)
Definition rejectedAccessor (d : option PropertyDescriptor) : Prop :=
  match d with
  | None => True
  | Some d => isFunction (desc_get d) = false
  end.

(** The three ways for a method descriptor to be wrong: missing, holding
    something that is not a function, explicitly non-writable. *)
Definition wrongMethodDescriptor (d : option PropertyDescriptor) : Prop :=
  d = None
  ∨ (∃ desc, d = Some desc ∧ isFunction (desc_value desc) = false)
  ∨ (∃ desc, d = Some desc ∧ desc_writable desc = VBoolean false).

(** The dispatch of the wire loop on [method === 1], on the accumulator
    alone. *)
Definition wireDispatch (wired : list string * list string)
    (entry : string * WireCompilerDef.t) : list string * list string :=
  if strictEquals (WireCompilerDef.method entry.2) (VNumber 1)
  then (ArrayPush wired.1 entry.1, wired.2)
  else (wired.1, ArrayPush wired.2 entry.1).

Definition isMethodBinding (entry : string * WireCompilerDef.t) : Prop :=
  WireCompilerDef.method entry.2 = VNumber 1.

Global Instance isMethodBinding_dec entry : Decision (isMethodBinding entry).
Proof. unfold isMethodBinding. apply _. Defined.

(** The metadata a completed registration stores, as a function of the
    compiler metadata alone. *)
Definition resolve (meta : RegisterDecoratorMeta.t) : DecoratorMeta.t :=
  let wire := default [] (forInEntries <$> RegisterDecoratorMeta.wire meta) in
  DecoratorMeta.mk
    (default [] (RegisterDecoratorMeta.publicMethods meta))
    (default [] (forInKeys <$> RegisterDecoratorMeta.publicProps meta))
    (keys (filter isMethodBinding wire))
    (keys (filter (λ e, ¬ isMethodBinding e) wire))
    (Entry (RegisterDecoratorMeta.fields meta)).

(** The state after [storeWiredMethodMeta] of the entry, [existing] being
    what [proto[name]] yielded: one more call. *)
Definition afterMethodBinding (Ctor : ComponentConstructor)
    (name : string) (def : WireCompilerDef.t) (existing : Value) (s : State) : State :=
  mkState (prototypes s) (signedDecoratorToMetaMap s)
    (wiring s ++ [StoreWiredMethodMeta Ctor name (WireCompilerDef.adapter def)
                    existing (WireCompilerDef.config def)]).

(** The state after the field branch: one more call, and the prototype
    [O'] that [defineProperty] returned. *)
Definition afterFieldBinding (Ctor : ComponentConstructor) (name : string)
    (def : WireCompilerDef.t) (O' : Obj) (s : State) : State :=
  mkState (<[Ctor := O']> (prototypes s)) (signedDecoratorToMetaMap s)
    (wiring s ++ [StoreWiredFieldMeta Ctor name (WireCompilerDef.adapter def)
                    (WireCompilerDef.config def)]).

(** The call the wire loop makes for an entry: which function, and with
    which arguments. The method a method binding passes along is whatever
    [proto[name]] yields at that moment. *)
Definition wiringCallFor (Ctor : ComponentConstructor)
    (entry : string * WireCompilerDef.t) (call : WiringCall) : Prop :=
  if decide (isMethodBinding entry)
  then ∃ existing,
         call = StoreWiredMethodMeta Ctor entry.1 (WireCompilerDef.adapter entry.2)
                  existing (WireCompilerDef.config entry.2)
  else call = StoreWiredFieldMeta Ctor entry.1 (WireCompilerDef.adapter entry.2)
                (WireCompilerDef.config entry.2).

(** The member name a call to the wiring subsystem is about. *)
Definition callName (call : WiringCall) : string :=
  match call with
  | StoreWiredMethodMeta _ name _ _ _ | StoreWiredFieldMeta _ name _ _ => name
  end.

(** An entry whose name is an array index. *)
Definition isIndexEntry {V} (kv : string * V) : Prop := arrayIndex kv.1 ≠ None.

(** Two array-index names in ascending numeric order. *)
Definition indexOrder (a b : string) : Prop :=
  match arrayIndex a, arrayIndex b with
  | Some i, Some j => (i ≤ j)%N
  | _, _ => False
  end.

(** The states the module can be in, with the classes that have been passed
    to [registerDecorators] so far: the [Map] starts empty, a call of
    [registerDecorators] (in either mode, completing or not) leaves the state
    it leaves, and code outside the module can change anything but the
    [Map], which is private to it. *)
Inductive History `{!Collaborators} : list ComponentConstructor → State → Prop :=
| history_start protos calls :
    History [] (mkState protos ∅ calls)
| history_register production Ctor meta registered s :
    History registered s →
    History (Ctor :: registered) (registerDecorators production Ctor meta s).2
| history_elsewhere registered s s' :
    History registered s →
    signedDecoratorToMetaMap s' = signedDecoratorToMetaMap s →
    History registered s'.

(** ** The collaborators as the specification describes them *)

Module Spec.

(** Modelled from the spec: [createPublicPropertyDescriptor] of [./api] is
    not part of the sources at hand; it "produces a get/set pair over a
    private backing slot", enumerable and configurable like a public field. *)
Definition createPublicPropertyDescriptor (key : string) : PropertyDescriptor :=
  AccessorDescriptor (VFunction (PublicFieldGetter key)) (VFunction (PublicFieldSetter key))
    true true.

(** Modelled from the spec: [createPublicAccessorDescriptor] of [./api] is
    not part of the sources at hand; it "wraps a user-authored getter
    (always) and setter (optional)", keeping the visibility of the authored
    descriptor. Without a getter there is nothing to wrap. *)
Definition createPublicAccessorDescriptor (key : string)
    (descriptor : option PropertyDescriptor) : Exception + PropertyDescriptor :=
  match descriptor with
  | None => inl (TypeError "Cannot destructure property 'get' of undefined")
  | Some d =>
      match desc_get d with
      | VFunction getter =>
          inr (AccessorDescriptor
                 (VFunction (PublicAccessorGetter key getter))
                 (VFunction match desc_set d with
                            | VFunction setter => PublicAccessorSetter key setter
                            | _ => PublicAccessorNoSetter key
                            end)
                 (desc_enumerable d) (desc_configurable d))
      | _ => inl (Error ("Invalid compiler output for public accessor " +:+ key
                         +:+ " decorated with @api"))
      end
  end.

(** Modelled from the spec: [internalWireFieldDecorator] of [./wire] is not
    part of the sources at hand; it "produces a descriptor where set raises
    an authoring error and get returns the most recently delivered value". *)
Definition internalWireFieldDecorator (key : string) : PropertyDescriptor :=
  AccessorDescriptor (VFunction (WireGetter key)) (VFunction (WireSetter key)) true true.

(** Modelled from the spec: [internalTrackDecorator] of [./track] is not
    part of the sources at hand; it "produces a get/set descriptor
    functionally identical to the public field descriptor's". *)
Definition internalTrackDecorator (key : string) : PropertyDescriptor :=
  AccessorDescriptor (VFunction (TrackGetter key)) (VFunction (TrackSetter key)) true true.

(** The getters of the sample classes: the authored getter [raise] throws,
    every other one returns [undefined]. *)
Definition callGetter (getter : Closure) (_ : ComponentConstructor) (_ : State)
  : Exception + Value :=
  if decide (getter = Authored "raise") then inl (Error "raised by the getter")
  else inr VUndefined.

(** Classes without a superclass member. *)
Definition collaborators : Collaborators :=
  Build_Collaborators
    createPublicPropertyDescriptor
    createPublicAccessorDescriptor
    internalWireFieldDecorator
    internalTrackDecorator
    (λ _, "class extends LightningElement {}")
    (λ _ _ _, inr VUndefined)
    callGetter.

End Spec.

(** ** Sample classes and metadata *)

Module Sample.

Definition field : PropCompilerDef.t := PropCompilerDef.mk Field "any".
Definition getter : PropCompilerDef.t := PropCompilerDef.mk Get "any".

Definition adapterA : Value := VFunction (Authored "getRecord").
Definition configC : Value := VFunction (Authored "config").

(** A module that has just been loaded: no class has members yet. *)
Definition fresh : State := mkState ∅ ∅ [].

(** Class 1 with an authored method [foo]. *)
Definition method (f : string) (writable : bool) : PropertyDescriptor :=
  DataDescriptor (VFunction (Authored f)) writable false true.

Definition withMethod (f : string) (writable : bool) : State :=
  mkState {[ 1%positive := mkObj {[ f := method f writable ]} true ]} ∅ [].

Definition withSetterOnly : State :=
  mkState {[ 1%positive :=
               mkObj {[ "v" := AccessorDescriptor VUndefined (VFunction (Authored "set v"))
                                 false true ]} true ]} ∅ [].

Definition onlyProps (props : JsRecord PropCompilerDef.t) : RegisterDecoratorMeta.t :=
  RegisterDecoratorMeta.mk None (Some props) None None None.

Definition onlyWire (wire : JsRecord WireCompilerDef.t) : RegisterDecoratorMeta.t :=
  RegisterDecoratorMeta.mk None None None (Some wire) None.

Definition onlyTrack (track : JsRecord Value) : RegisterDecoratorMeta.t :=
  RegisterDecoratorMeta.mk None None (Some track) None None.

Definition wireField : WireCompilerDef.t := WireCompilerDef.mk VUndefined adapterA configC.
Definition wireMethod : WireCompilerDef.t := WireCompilerDef.mk (VNumber 1) adapterA configC.
Definition wireTrue : WireCompilerDef.t :=
  WireCompilerDef.mk (VBoolean true) adapterA configC.

End Sample.

(** * Vocabulary of the further properties *)

(** The wire entries that are bound as fields. *)
Definition wiredFieldEntries (meta : RegisterDecoratorMeta.t) : JsRecord WireCompilerDef.t :=
  filter (λ e, ¬ isMethodBinding e) (default [] (RegisterDecoratorMeta.wire meta)).

(** The names under which a registration defines a property on the
    prototype: public props, wired fields and tracked fields. *)
Definition installedNames (meta : RegisterDecoratorMeta.t) : list string :=
  keys (default [] (RegisterDecoratorMeta.publicProps meta))
  ++ keys (wiredFieldEntries meta)
  ++ keys (default [] (RegisterDecoratorMeta.track meta)).

(** An own property that is there stays there. *)
Definition keepsOwn (Ctor : ComponentConstructor) (name : string) : relation State :=
  λ s s', is_Some (ownDescriptor Ctor name s) → is_Some (ownDescriptor Ctor name s').

(** The calls received by the wiring subsystem are only added to. *)
Definition growsWiring : relation State :=
  λ s s', wiring s `prefix_of` wiring s'.


(** The five loops of [registerDecorators], in the order it runs them. *)
Definition publicPropsLoop `{!Collaborators} (production : bool)
    (Ctor : ComponentConstructor) (meta : RegisterDecoratorMeta.t) : M (list string) :=
  whenDefined (RegisterDecoratorMeta.publicProps meta)
    (λ publicProps, forEachM (publicPropsBody production Ctor) (forInEntries publicProps)) [].

Definition publicMethodsLoop `{!Collaborators} (production : bool)
    (Ctor : ComponentConstructor) (meta : RegisterDecoratorMeta.t) : M (list string) :=
  whenDefined (RegisterDecoratorMeta.publicMethods meta)
    (λ publicMethods, forEachM (publicMethodsBody production Ctor) publicMethods) [].

Definition wireLoop `{!Collaborators} (production : bool)
    (Ctor : ComponentConstructor) (meta : RegisterDecoratorMeta.t)
  : M (list string * list string) :=
  whenDefined (RegisterDecoratorMeta.wire meta)
    (λ wire, forEachM (wireBody production Ctor) (forInEntries wire)) ([], []).

Definition trackLoop `{!Collaborators} (production : bool)
    (Ctor : ComponentConstructor) (meta : RegisterDecoratorMeta.t) : M unit :=
  whenDefined (RegisterDecoratorMeta.track meta)
    (λ track, forEachM (trackBody production Ctor) (forInEntries track)) ().

Definition fieldsLoop `{!Collaborators} (production : bool)
    (Ctor : ComponentConstructor) (meta : RegisterDecoratorMeta.t) : M unit :=
  whenDefined (RegisterDecoratorMeta.fields meta)
    (λ fields, forEachM (fieldsBody production Ctor) fields) ().

(** The field-style declarations of a metadata object: the ones whose
    validator wants the prototype to have no own property under the name. *)
Definition declaresPublicField (meta : RegisterDecoratorMeta.t) (name : string) : Prop :=
  ∃ def, (name, def) ∈ default [] (RegisterDecoratorMeta.publicProps meta)
         ∧ PropCompilerDef.config def = Field.

Definition declaresWiredField (meta : RegisterDecoratorMeta.t) (name : string) : Prop :=
  name ∈ keys (wiredFieldEntries meta).

Definition declaresTracked (meta : RegisterDecoratorMeta.t) (name : string) : Prop :=
  name ∈ keys (default [] (RegisterDecoratorMeta.track meta)).

Definition declaresObserved (meta : RegisterDecoratorMeta.t) (name : string) : Prop :=
  name ∈ default [] (RegisterDecoratorMeta.fields meta).

(** [completes m s]: run from [s], [m] returns. *)
Definition completes {A} (m : M A) (s : State) : Prop := ∃ a s', m s = (Normal a, s').

(** [raises E m]: every exception [m] can end in satisfies [E]. *)
Definition raises (E : Exception → Prop) {A} (m : M A) : Prop :=
  ∀ s e s', m s = (Throw e, s') → E e.

(** The exceptions a registration can end in without a validator: the
    [TypeError] of [defineProperty] under a name the registration installs,
    whatever [createPublicAccessorDescriptor] throws for a public prop, and
    whatever the read of [proto[name]] throws for a wired method. *)
Definition productionAbortSource `{!Collaborators} (Ctor : ComponentConstructor)
    (meta : RegisterDecoratorMeta.t) (e : Exception) : Prop :=
  (∃ P, P ∈ installedNames meta
        ∧ (e = TypeError ("Cannot redefine property: " +:+ P)
           ∨ e = TypeError ("Cannot define property " +:+ P
                            +:+ ", object is not extensible")))
  ∨ (∃ name descriptor,
       name ∈ keys (default [] (RegisterDecoratorMeta.publicProps meta))
       ∧ createPublicAccessorDescriptor name descriptor = inl e)
  ∨ (∃ entry s0,
       entry ∈ default [] (RegisterDecoratorMeta.wire meta)
       ∧ isMethodBinding entry
       ∧ ordinaryGet Ctor (prototype s0 Ctor) entry.1 s0 = inl e).

(** The prototype of [Ctor] has an own data property under [name]. *)
Definition ownDataProperty (Ctor : ComponentConstructor) (name : string) (s : State)
  : Prop :=
  match ownDescriptor Ctor name s with
  | Some (DataDescriptor _ _ _ _) => True
  | _ => False
  end.

Global Instance ownDataProperty_dec Ctor name s : Decision (ownDataProperty Ctor name s).
Proof.
  unfold ownDataProperty. destruct (ownDescriptor Ctor name s) as [[]|]; apply _.
Defined.

(** The call of [storeWiredMethodMeta] for a wire entry whose member is
    the value the prototype holds under the name in state [s]. *)
Definition wiredMethodCall (Ctor : ComponentConstructor) (s : State)
    (entry : string * WireCompilerDef.t) : WiringCall :=
  StoreWiredMethodMeta Ctor entry.1 (WireCompilerDef.adapter entry.2)
    (match ownDescriptor Ctor entry.1 s with
     | Some d => desc_value d
     | None => VUndefined
     end)
    (WireCompilerDef.config entry.2).

(** Further sample classes and metadata. *)
Module MoreSamples.
Import Sample.

(** A class with a public field, a tracked field, a wired field, a wired
    method, a public method listed twice and an observed field. *)
Definition fullMeta : RegisterDecoratorMeta.t :=
  RegisterDecoratorMeta.mk (Some ["foo"; "foo"]) (Some [("x", field)])
    (Some [("z", VNumber 1)]) (Some [("y", wireField); ("foo", wireMethod)]) (Some ["w"]).

(** Class 1 with an authored getter [v]. *)
Definition withGetter : State :=
  mkState {[ 1%positive :=
               mkObj {[ "v" := AccessorDescriptor (VFunction (Authored "get v")) VUndefined
                                 false true ]} true ]} ∅ [].

(** Class 1 whose member [foo] is an accessor with the getter [raise]. *)
Definition withRaisingGetter : State :=
  mkState {[ 1%positive :=
               mkObj {[ "foo" := AccessorDescriptor (VFunction (Authored "raise")) VUndefined
                                   false true ]} true ]} ∅ [].

(** Class 1 with a member [foo] that holds a number and cannot be written. *)
Definition withNumber : State :=
  mkState {[ 1%positive :=
               mkObj {[ "foo" := DataDescriptor (VNumber 7) false false true ]} true ]} ∅ [].

End MoreSamples.

(** * transformers/style.ts: the string helpers *)

(** The helpers of [lwc-compiler/src/transformers/style.ts] that work on
    strings alone. A string is its sequence of characters; the helpers look
    at one character at a time, or at a fixed run of them. *)
Module Style.

(** [const TOKEN_PLACEHOLDER = '__TOKEN__'] *)
Definition TOKEN_PLACEHOLDER : string := "__TOKEN__".

(** The grave accent and the back slash. *)
Definition graveAccent : ascii := "096"%char.
Definition backSlash : ascii := "092"%char.

(** The character class [[`\\]] of [escapeString]. *)
Definition needsEscape (char : ascii) : bool :=
  Ascii.eqb char graveAccent || Ascii.eqb char backSlash.

(** [src.replace(/[`\\]/g, char => '\\' + char)] *)
Fixpoint escapeString (src : string) : string :=
  match src with
  | EmptyString => EmptyString
  | String char rest =>
      if needsEscape char then String backSlash (String char (escapeString rest))
      else String char (escapeString rest)
  end.

(** [s.startsWith(p)] *)
Fixpoint startsWith (s p : string) {struct p} : bool :=
  match p with
  | EmptyString => true
  | String a p' =>
      match s with
      | EmptyString => false
      | String b s' => Ascii.eqb a b && startsWith s' p'
      end
  end.

(** [s.includes(sub)] *)
Fixpoint includes (s sub : string) : bool :=
  startsWith s sub
  || match s with
     | EmptyString => false
     | String _ rest => includes rest sub
     end.

(** [src.replace(new RegExp(pattern, 'g'), replacement)] for a pattern
    that is a plain, non-empty run of characters and a replacement without
    [$]-patterns: the matches are taken from left to right and do not
    overlap. [skip] counts the characters of the current match that are
    still to be passed over. *)
Fixpoint replaceAllFrom (pattern replacement : string) (skip : nat) (src : string) : string :=
  match src with
  | EmptyString => EmptyString
  | String char rest =>
      match skip with
      | S skip' => replaceAllFrom pattern replacement skip' rest
      | O =>
          if startsWith src pattern
          then replacement +:+ replaceAllFrom pattern replacement
                                 (String.length pattern - 1) rest
          else String char (replaceAllFrom pattern replacement 0 rest)
      end
  end.

(** [replaceToken]: the replacement [${token}] has a [$] followed by a
    brace, which [replace] copies as it is. *)
Definition replaceToken (src : string) : string :=
  replaceAllFrom TOKEN_PLACEHOLDER "${token}" 0 src.

(** The string without its first [n] characters. *)
Fixpoint dropChars (n : nat) (s : string) : string :=
  match n, s with
  | S n', String _ rest => dropChars n' rest
  | _, _ => s
  end.

(** A string in which every grave accent and every back slash is the second
    character of a pair that starts with a back slash. *)
Inductive Escaped : string → Prop :=
| escaped_empty : Escaped EmptyString
| escaped_plain char rest :
    needsEscape char = false → Escaped rest → Escaped (String char rest)
| escaped_pair char rest :
    needsEscape char = true → Escaped rest →
    Escaped (String backSlash (String char rest)).

End Style.

(** * Lemmas and checked properties *)

(** ** Reasoning about computations *)

Lemma bind_Normal {A B} (m : M A) (f : A → M B) s a s1 :
  m s = (Normal a, s1) → (m ≫= f) s = f a s1.
Proof. intros Hm. unfold mbind, M_bind. by rewrite Hm. Qed.

Lemma bind_Throw {A B} (m : M A) (f : A → M B) s e s1 :
  m s = (Throw e, s1) → (m ≫= f) s = (Throw e, s1).
Proof. intros Hm. unfold mbind, M_bind. by rewrite Hm. Qed.

Lemma bind_Normal_inv {A B} (m : M A) (f : A → M B) s b s2 :
  (m ≫= f) s = (Normal b, s2) →
  ∃ a s1, m s = (Normal a, s1) ∧ f a s1 = (Normal b, s2).
Proof.
  unfold mbind, M_bind. destruct (m s) as [[a|e] s1]; intros Heq.
  - by exists a, s1.
  - discriminate.
Qed.

Lemma bind_cases {A B} (m : M A) (f : A → M B) s :
  (∃ a s1, m s = (Normal a, s1) ∧ (m ≫= f) s = f a s1)
  ∨ (∃ e s1, m s = (Throw e, s1) ∧ (m ≫= f) s = (Throw e, s1)).
Proof.
  unfold mbind, M_bind. destruct (m s) as [[a|e] s1]; [left|right]; eauto.
Qed.

Section Frames.
Context (R : relation State) `{!PreOrder R}.

Lemma frames_ret {A} (a : A) : frames R (mret a).
Proof. intros s. simpl. reflexivity. Qed.

Lemma frames_throw {A} e : frames R (@throw A e).
Proof. intros s. simpl. reflexivity. Qed.

Lemma frames_bind {A B} (m : M A) (f : A → M B) :
  frames R m → (∀ a, frames R (f a)) → frames R (m ≫= f).
Proof.
  intros Hm Hf s. specialize (Hm s).
  unfold mbind, M_bind. destruct (m s) as [[a|e] s1]; simpl in *.
  - etrans; [exact Hm | apply Hf].
  - exact Hm.
Qed.

Lemma frames_forEachM {A L} (body : A → L → M L) xs :
  (∀ x, x ∈ xs → ∀ acc, frames R (body x acc)) →
  ∀ acc, frames R (forEachM body xs acc).
Proof.
  induction xs as [|x xs IH]; intros Hbody acc; simpl.
  - apply frames_ret.
  - apply frames_bind.
    + apply Hbody. by left.
    + intros acc'. apply IH. intros y Hy. apply Hbody. by right.
Qed.

Lemma frames_whenDefined {A L} (x : option A) (loop : A → L → M L) acc :
  (∀ a, x = Some a → frames R (loop a acc)) → frames R (whenDefined x loop acc).
Proof. destruct x; simpl; [auto | intros; apply frames_ret]. Qed.

Lemma frames_if {A} (b : bool) (m1 m2 : M A) :
  frames R m1 → frames R m2 → frames R (if b then m1 else m2).
Proof. by destruct b. Qed.

Lemma frames_getOwnPropertyDescriptor Ctor P : frames R (getOwnPropertyDescriptor Ctor P).
Proof. intros s. simpl. reflexivity. Qed.

Lemma frames_assert_fail msg : frames R (assert_fail msg).
Proof. apply frames_throw. Qed.

Lemma frames_assert_isTrue b msg : frames R (assert_isTrue b msg).
Proof. destruct b; [apply frames_ret | apply frames_throw]. Qed.
End Frames.

Lemma forEachM_cons {A L} (body : A → L → M L) x xs acc :
  forEachM body (x :: xs) acc = body x acc ≫= forEachM body xs.
Proof. reflexivity. Qed.

(** A loop whose body only ever appends to its accumulator returns, when it
    completes, the fold of those appends. *)
Lemma forEachM_result {A L} (body : A → L → M L) (g : L → A → L) xs :
  (∀ x acc s a s', body x acc s = (Normal a, s') → a = g acc x) →
  ∀ acc s a s', forEachM body xs acc s = (Normal a, s') → a = foldl g acc xs.
Proof.
  intros Hbody. induction xs as [|x xs IH]; intros acc s a s' Hrun; simpl in *.
  - by inversion Hrun.
  - apply bind_Normal_inv in Hrun as (acc' & s1 & Hx & Hrest).
    apply Hbody in Hx as ->. by apply IH in Hrest.
Qed.

(** A loop aborts as soon as it reaches an entry whose body aborts. [I] is
    an invariant of the state that the bodies of the other entries keep and
    under which the body of [x] is sure to abort. *)
Lemma forEachM_throws {A L} (body : A → L → M L) (I : State → Prop) x xs :
  x ∈ xs →
  (∀ y, y ∈ xs → y = x ∨ ∀ acc s, I s → I (body y acc s).2) →
  (∀ acc s, I s → ∃ e s', body x acc s = (Throw e, s')) →
  ∀ acc s, I s → ∃ e s', forEachM body xs acc s = (Throw e, s').
Proof.
  intros Hin Hkeep Hthrow.
  induction xs as [|y xs IH]; intros acc s HI; [by apply elem_of_nil in Hin|].
  rewrite forEachM_cons.
  destruct (bind_cases (body y acc) (forEachM body xs) s)
    as [(acc' & s1 & Hy & ->)|(e & s1 & Hy & ->)]; [|eauto].
  destruct (Hkeep y) as [->|Hy']; [by left| |].
  - destruct (Hthrow acc s HI) as (e & s' & He). congruence.
  - apply elem_of_cons in Hin as [->|Hin].
    + destruct (Hthrow acc s HI) as (e & s' & He). congruence.
    + apply IH; [done| |].
      * intros z Hz. apply Hkeep. by right.
      * specialize (Hy' acc s HI). by rewrite Hy in Hy'.
Qed.

Global Instance sameOn_preorder {B} (f : State → B) : PreOrder (sameOn f).
Proof.
  split.
  - by intros s.
  - intros s1 s2 s3 H12 H23. unfold sameOn in *. congruence.
Qed.

Lemma frames_definePropertyOnPrototype_registry Ctor P Desc :
  frames (sameOn signedDecoratorToMetaMap) (definePropertyOnPrototype Ctor P Desc).
Proof.
  intros s. unfold definePropertyOnPrototype, sameOn.
  by destruct (defineProperty _ _ _).
Qed.

Lemma frames_definePropertyOnPrototype_wiring Ctor P Desc :
  frames (sameOn wiring) (definePropertyOnPrototype Ctor P Desc).
Proof.
  intros s. unfold definePropertyOnPrototype, sameOn.
  by destruct (defineProperty _ _ _).
Qed.

Lemma defineProperty_Some O P Desc O' :
  defineProperty O P Desc = Some O' →
  own O' = <[P := Desc]> (own O) ∧ extensible O' = extensible O.
Proof.
  unfold defineProperty. intros Hdef.
  repeat (case_match; simplify_eq/=; try done).
Qed.

Lemma frames_definePropertyOnPrototype_other Ctor P Desc Ctor' name :
  name ≠ P →
  frames (sameOn (ownDescriptor Ctor' name)) (definePropertyOnPrototype Ctor P Desc).
Proof.
  intros Hne s. unfold definePropertyOnPrototype, sameOn, ownDescriptor, prototype.
  destruct (defineProperty _ _ _) as [O'|] eqn:Hdef; simpl; [|done].
  apply defineProperty_Some in Hdef as [Hown _].
  destruct (decide (Ctor' = Ctor)) as [->|Hc].
  - rewrite lookup_total_insert_eq, Hown. by rewrite lookup_insert_ne.
  - by rewrite lookup_total_insert_ne.
Qed.

(** Decomposes a goal [frames R m] along the structure of [m]. *)
Ltac frames_auto :=
  repeat first
    [ assumption
    | match goal with |- PreOrder _ => apply _ end
    | apply frames_bind | apply frames_if | apply frames_ret | apply frames_throw
    | apply frames_assert_fail | apply frames_assert_isTrue
    | apply frames_getOwnPropertyDescriptor
    | match goal with |- frames _ (match ?x with _ => _ end) => destruct x end
    | match goal with |- ∀ _, _ => intros ? end ].

Section BodyFrames.
Context `{!Collaborators} (production : bool).

(** The validators and [proto[name]] never change the state. *)
Section Readers.
Context (R : relation State) `{!PreOrder R}.

Lemma frames_validateObservedField Ctor name :
  frames R (validateObservedField production Ctor name).
Proof. unfold validateObservedField. frames_auto. Qed.

Lemma frames_validateFieldDecoratedWithTrack Ctor name :
  frames R (validateFieldDecoratedWithTrack production Ctor name).
Proof. unfold validateFieldDecoratedWithTrack. frames_auto. Qed.

Lemma frames_validateFieldDecoratedWithWire Ctor name :
  frames R (validateFieldDecoratedWithWire production Ctor name).
Proof. unfold validateFieldDecoratedWithWire. frames_auto. Qed.

Lemma frames_validateMethodDecoratedWithWire Ctor name :
  frames R (validateMethodDecoratedWithWire production Ctor name).
Proof. unfold validateMethodDecoratedWithWire. frames_auto. Qed.

Lemma frames_validateFieldDecoratedWithApi Ctor name :
  frames R (validateFieldDecoratedWithApi production Ctor name).
Proof. unfold validateFieldDecoratedWithApi. frames_auto. Qed.

Lemma frames_validateAccessorDecoratedWithApi Ctor name :
  frames R (validateAccessorDecoratedWithApi production Ctor name).
Proof. unfold validateAccessorDecoratedWithApi. frames_auto. Qed.

Lemma frames_validateMethodDecoratedWithApi Ctor name :
  frames R (validateMethodDecoratedWithApi production Ctor name).
Proof. unfold validateMethodDecoratedWithApi. frames_auto. Qed.

Lemma frames_protoGet Ctor name : frames R (protoGet Ctor name).
Proof. intros s. unfold protoGet. destruct (ordinaryGet _ _ _ _); reflexivity. Qed.

Lemma frames_publicMethodsBody Ctor name acc :
  frames R (publicMethodsBody production Ctor name acc).
Proof.
  unfold publicMethodsBody.
  pose proof (frames_validateMethodDecoratedWithApi Ctor name). frames_auto.
Qed.

Lemma frames_fieldsBody Ctor name acc :
  frames R (fieldsBody production Ctor name acc).
Proof.
  unfold fieldsBody.
  pose proof (frames_validateObservedField Ctor name). frames_auto.
Qed.

(** The loop bodies that install a descriptor keep whatever
    [defineProperty] under the name they process keeps. *)
Lemma frames_publicPropsBody Ctor entry acc :
  (∀ Desc, frames R (definePropertyOnPrototype Ctor entry.1 Desc)) →
  frames R (publicPropsBody production Ctor entry acc).
Proof.
  destruct entry as [name def]. intros Hdef.
  pose proof (frames_validateAccessorDecoratedWithApi Ctor name).
  pose proof (frames_validateFieldDecoratedWithApi Ctor name).
  unfold publicPropsBody. frames_auto. apply Hdef.
Qed.

Lemma frames_trackBody Ctor entry acc :
  (∀ Desc, frames R (definePropertyOnPrototype Ctor entry.1 Desc)) →
  frames R (trackBody production Ctor entry acc).
Proof.
  destruct entry as [name v]. intros Hdef.
  pose proof (frames_validateFieldDecoratedWithTrack Ctor name).
  unfold trackBody. frames_auto. apply Hdef.
Qed.

Lemma frames_wireBody Ctor entry acc :
  (∀ Desc, frames R (definePropertyOnPrototype Ctor entry.1 Desc)) →
  (∀ adapter method cb, frames R (storeWiredMethodMeta Ctor entry.1 adapter method cb)) →
  (∀ adapter cb, frames R (storeWiredFieldMeta Ctor entry.1 adapter cb)) →
  frames R (wireBody production Ctor entry acc).
Proof.
  destruct entry as [name def], acc as [wiredMethods wiredFields].
  intros Hdef Hmethod Hfield.
  pose proof (frames_validateMethodDecoratedWithWire Ctor name).
  pose proof (frames_validateFieldDecoratedWithWire Ctor name).
  pose proof (frames_protoGet Ctor name).
  unfold wireBody. frames_auto; first [apply Hmethod | apply Hfield | apply Hdef].
Qed.
End Readers.

(** *** What a loop body returns when it completes *)

Lemma publicPropsBody_result Ctor entry acc s a s' :
  publicPropsBody production Ctor entry acc s = (Normal a, s') →
  a = ArrayPush acc entry.1.
Proof.
  destruct entry as [name def]. unfold publicPropsBody. intros Hrun.
  apply bind_Normal_inv in Hrun as (d & s1 & _ & Hrun).
  apply bind_Normal_inv in Hrun as ([] & s2 & _ & Hrun).
  by inversion Hrun.
Qed.

Lemma publicMethodsBody_result Ctor name acc s a s' :
  publicMethodsBody production Ctor name acc s = (Normal a, s') →
  a = ArrayPush acc name.
Proof.
  unfold publicMethodsBody. intros Hrun.
  apply bind_Normal_inv in Hrun as ([] & s1 & _ & Hrun).
  by inversion Hrun.
Qed.

Lemma wireBody_result Ctor entry acc s a s' :
  wireBody production Ctor entry acc s = (Normal a, s') →
  a = wireDispatch acc entry.
Proof.
  destruct entry as [name def], acc as [wiredMethods wiredFields].
  unfold wireBody, wireDispatch. simpl.
  destruct (strictEquals _ _); intros Hrun.
  - apply bind_Normal_inv in Hrun as ([] & s1 & _ & Hrun).
    apply bind_Normal_inv in Hrun as (existing & s2 & _ & Hrun).
    apply bind_Normal_inv in Hrun as ([] & s3 & _ & Hrun).
    by inversion Hrun.
  - apply bind_Normal_inv in Hrun as ([] & s1 & _ & Hrun).
    apply bind_Normal_inv in Hrun as ([] & s2 & _ & Hrun).
    apply bind_Normal_inv in Hrun as ([] & s3 & _ & Hrun).
    by inversion Hrun.
Qed.
End BodyFrames.

Lemma frames_storeWiredMethodMeta {B} (f : State → B) Ctor name adapter method cb :
  (∀ p r w w', f (mkState p r w) = f (mkState p r w')) →
  frames (sameOn f) (storeWiredMethodMeta Ctor name adapter method cb).
Proof. intros Hf [p r w]. unfold sameOn. simpl. apply Hf. Qed.

Lemma frames_storeWiredFieldMeta {B} (f : State → B) Ctor name adapter cb :
  (∀ p r w w', f (mkState p r w) = f (mkState p r w')) →
  frames (sameOn f) (storeWiredFieldMeta Ctor name adapter cb).
Proof. intros Hf [p r w]. unfold sameOn. simpl. apply Hf. Qed.

(** Appending in a fold is appending the mapped list. *)
Lemma foldl_ArrayPush {A B} (f : A → B) (xs : list A) (acc : list B) :
  foldl (λ acc x, ArrayPush acc (f x)) acc xs = acc ++ (f <$> xs).
Proof.
  revert acc. induction xs as [|x xs IH]; intros acc; simpl.
  - by rewrite app_nil_r.
  - rewrite IH. unfold ArrayPush. by rewrite <- app_assoc.
Qed.

Lemma foldl_wireDispatch xs wired :
  foldl wireDispatch wired xs
  = (wired.1 ++ keys (filter isMethodBinding xs),
     wired.2 ++ keys (filter (λ e, ¬ isMethodBinding e) xs)).
Proof.
  revert wired. induction xs as [|x xs IH]; intros [wm wf]; simpl.
  - by rewrite !app_nil_r.
  - rewrite IH. unfold wireDispatch, strictEquals, keys, ArrayPush. simpl.
    rewrite !filter_cons.
    destruct (decide (isMethodBinding x)) as [Hx|Hx].
    + rewrite (bool_decide_eq_true_2 _ Hx).
      destruct (decide (¬ isMethodBinding x)); [done|].
      simpl. by rewrite <- app_assoc.
    + rewrite (bool_decide_eq_false_2 _ Hx).
      destruct (decide (¬ isMethodBinding x)); [|done].
      simpl. by rewrite <- app_assoc.
Qed.

(** ** The five loops of [registerDecorators] *)

Section Loops.
Context `{!Collaborators} (production : bool) (Ctor : ComponentConstructor).

(** The first and the fourth loop keep what [defineProperty] keeps. *)
Lemma frames_publicProps (R : relation State) `{!PreOrder R} x acc :
  (∀ P Desc, frames R (definePropertyOnPrototype Ctor P Desc)) →
  frames R
    (whenDefined x (λ r, forEachM (publicPropsBody production Ctor) (forInEntries r)) acc).
Proof.
  intros Hdef. apply frames_whenDefined; [done|]. intros r _.
  apply frames_forEachM; [done|]. intros e _ acc'.
  by apply frames_publicPropsBody.
Qed.

Lemma frames_track (R : relation State) `{!PreOrder R} x acc :
  (∀ P Desc, frames R (definePropertyOnPrototype Ctor P Desc)) →
  frames R
    (whenDefined x (λ r, forEachM (trackBody production Ctor) (forInEntries r)) acc).
Proof.
  intros Hdef. apply frames_whenDefined; [done|]. intros r _.
  apply frames_forEachM; [done|]. intros e _ acc'.
  by apply frames_trackBody.
Qed.

(** None of the loops writes the registry. *)
Lemma frames_registry_publicProps x acc :
  frames (sameOn signedDecoratorToMetaMap)
    (whenDefined x (λ r, forEachM (publicPropsBody production Ctor) (forInEntries r)) acc).
Proof.
  apply frames_publicProps; [apply _|].
  intros. apply frames_definePropertyOnPrototype_registry.
Qed.

Lemma frames_any_publicMethods (R : relation State) `{!PreOrder R} x acc :
  frames R (whenDefined x (λ l, forEachM (publicMethodsBody production Ctor) l) acc).
Proof.
  apply frames_whenDefined; [done|]. intros r _.
  apply frames_forEachM; [done|]. intros e _ acc'.
  by apply frames_publicMethodsBody.
Qed.

Lemma frames_registry_wire x acc :
  frames (sameOn signedDecoratorToMetaMap)
    (whenDefined x (λ r, forEachM (wireBody production Ctor) (forInEntries r)) acc).
Proof.
  apply frames_whenDefined; [apply _|]. intros r _.
  apply frames_forEachM; [apply _|]. intros e _ acc'.
  apply frames_wireBody; [apply _| | |]; intros.
  - apply frames_definePropertyOnPrototype_registry.
  - by apply frames_storeWiredMethodMeta.
  - by apply frames_storeWiredFieldMeta.
Qed.

Lemma frames_registry_track x acc :
  frames (sameOn signedDecoratorToMetaMap)
    (whenDefined x (λ r, forEachM (trackBody production Ctor) (forInEntries r)) acc).
Proof.
  apply frames_track; [apply _|].
  intros. apply frames_definePropertyOnPrototype_registry.
Qed.

Lemma frames_any_fields (R : relation State) `{!PreOrder R} x acc :
  frames R (whenDefined x (λ l, forEachM (fieldsBody production Ctor) l) acc).
Proof.
  apply frames_whenDefined; [done|]. intros r _.
  apply frames_forEachM; [done|]. intros e _ acc'.
  by apply frames_fieldsBody.
Qed.

(** The arrays the first three loops build. *)
Lemma publicProps_result x s a s' :
  whenDefined x (λ r, forEachM (publicPropsBody production Ctor) (forInEntries r)) [] s
    = (Normal a, s') →
  a = default [] (forInKeys <$> x).
Proof.
  destruct x as [r|]; simpl; [|by inversion 1]. intros Hrun.
  eapply (forEachM_result _ (λ acc e, ArrayPush acc e.1)) in Hrun as ->.
  - by rewrite foldl_ArrayPush.
  - intros. by eapply publicPropsBody_result.
Qed.

Lemma publicMethods_result x s a s' :
  whenDefined x (λ l, forEachM (publicMethodsBody production Ctor) l) [] s
    = (Normal a, s') →
  a = default [] x.
Proof.
  destruct x as [l|]; simpl; [|by inversion 1]. intros Hrun.
  eapply (forEachM_result _ (λ acc e, ArrayPush acc e)) in Hrun as ->.
  - rewrite (foldl_ArrayPush id). simpl. by rewrite list_fmap_id.
  - intros. by eapply publicMethodsBody_result.
Qed.

Lemma wire_result x s a s' :
  whenDefined x (λ r, forEachM (wireBody production Ctor) (forInEntries r)) ([], []) s
    = (Normal a, s') →
  a = (keys (filter isMethodBinding (default [] (forInEntries <$> x))),
       keys (filter (λ e, ¬ isMethodBinding e) (default [] (forInEntries <$> x)))).
Proof.
  destruct x as [r|]; simpl; [|by inversion 1]. intros Hrun.
  eapply (forEachM_result _ wireDispatch) in Hrun as ->.
  - by rewrite foldl_wireDispatch.
  - intros. by eapply wireBody_result.
Qed.
End Loops.

Section Outcome.
Context `{!Collaborators} (production : bool).

Local Ltac next_loop Hrun Hframe :=
  cbv beta;
  match goal with
  | |- context [(?m ≫= ?f) ?s] =>
      let Hm := fresh "Hm" in
      pose proof (Hframe s) as Hm;
      destruct (bind_cases m f s) as [(? & ? & Hrun & ->)|(? & ? & Hrun & ->)];
      rewrite Hrun in Hm; unfold sameOn in Hm; simpl in Hm;
      [|right; eexists _, _; split; [done|congruence]]
  end.

(** Registration either completes, having stored [resolve meta] for
    [Ctor] and nothing else, or aborts with the registry as it was. *)
Lemma registerDecorators_outcome Ctor meta s :
  (∃ s', registerDecorators production Ctor meta s = (Normal Ctor, s')
         ∧ signedDecoratorToMetaMap s'
           = <[Ctor := resolve meta]> (signedDecoratorToMetaMap s))
  ∨ (∃ e s', registerDecorators production Ctor meta s = (Throw e, s')
             ∧ signedDecoratorToMetaMap s' = signedDecoratorToMetaMap s).
Proof.
  unfold registerDecorators.
  next_loop H1 (frames_registry_publicProps production Ctor
                  (RegisterDecoratorMeta.publicProps meta) []).
  next_loop H2 (frames_any_publicMethods production Ctor
                  (sameOn signedDecoratorToMetaMap)
                  (RegisterDecoratorMeta.publicMethods meta) []).
  next_loop H3 (frames_registry_wire production Ctor
                  (RegisterDecoratorMeta.wire meta) ([], [])).
  next_loop H4 (frames_registry_track production Ctor
                  (RegisterDecoratorMeta.track meta) ()).
  next_loop H5 (frames_any_fields production Ctor
                  (sameOn signedDecoratorToMetaMap)
                  (RegisterDecoratorMeta.fields meta) ()).
  left. eexists. split; [reflexivity|]. simpl.
  apply publicProps_result in H1 as ->.
  apply publicMethods_result in H2 as ->.
  apply wire_result in H3 as ->.
  unfold resolve. simpl. congruence.
Qed.
End Outcome.

(** ** Enumeration order of records *)

Section ForIn.
Context {V : Type}.
Implicit Types r : JsRecord V.

Lemma indexed_entries r : snd <$> indexed r = filter isIndexEntry r.
Proof.
  unfold indexed, isIndexEntry. induction r as [|[k v] r IH]; [done|].
  rewrite filter_cons.
  destruct (decide _) as [Hd|Hd]; simpl in *;
    destruct (arrayIndex k) as [i|] eqn:Hk; simpl.
  - f_equal. exact IH.
  - by destruct Hd.
  - by destruct Hd.
  - exact IH.
Qed.

Lemma forInEntries_Permutation r : forInEntries r ≡ₚ r.
Proof.
  unfold forInEntries.
  rewrite (merge_sort_Permutation index_le (indexed r)), indexed_entries.
  rewrite <- (filter_app_complement isIndexEntry r) at 3.
  apply Permutation_app_head.
  rewrite (list_filter_iff (λ kv, arrayIndex kv.1 = None) (λ kv, ¬ isIndexEntry kv));
    [done|].
  intros [k v]. unfold isIndexEntry. simpl.
  destruct (arrayIndex k); naive_solver.
Qed.

Lemma forInKeys_Permutation r : forInKeys r ≡ₚ keys r.
Proof. unfold forInKeys, keys. by rewrite forInEntries_Permutation. Qed.

Lemma elem_of_forInEntries r e : e ∈ forInEntries r ↔ e ∈ r.
Proof. by rewrite forInEntries_Permutation. Qed.

Lemma forInKeys_NoDup r : NoDup (keys r) → NoDup (forInKeys r).
Proof. by rewrite forInKeys_Permutation. Qed.

(** Without array-index names the enumeration is the creation order. *)
Lemma forInEntries_no_index r :
  Forall (λ k, arrayIndex k = None) (keys r) → forInEntries r = r.
Proof.
  intros Hnone. unfold forInEntries.
  assert (indexed r = []) as ->.
  { unfold indexed, keys in *. induction r as [|[k v] r IH]; [done|].
    apply Forall_cons in Hnone as [Hk Hr]. simpl in *. rewrite Hk. by apply IH. }
  simpl. induction r as [|[k v] r IH]; [done|].
  apply Forall_cons in Hnone as [Hk Hr]. rewrite filter_cons.
  destruct (decide _) as [Hd|Hd]; simpl in *; [|done]. f_equal. by apply IH.
Qed.

(** The names of an object determine its entries. *)
Lemma NoDup_keys_entry r k v1 v2 :
  NoDup (keys r) → (k, v1) ∈ r → (k, v2) ∈ r → v1 = v2.
Proof.
  unfold keys. induction r as [|[k' v'] r IH]; intros Hnd H1 H2.
  - by apply elem_of_nil in H1.
  - apply NoDup_cons in Hnd as [Hk' Hnd]. simpl in *.
    apply elem_of_cons in H1 as [H1|H1], H2 as [H2|H2]; simplify_eq.
    + done.
    + destruct Hk'. apply list_elem_of_fmap. by exists (k', v2).
    + destruct Hk'. apply list_elem_of_fmap. by exists (k', v1).
    + by apply IH.
Qed.
End ForIn.

(** ** Abortion *)

Lemma aborts_bind_l {A B} (m : M A) (f : A → M B) s : aborts m s → aborts (m ≫= f) s.
Proof. intros (e & s' & Hm). exists e, s'. by apply bind_Throw. Qed.

Lemma aborts_bind {A B} (m : M A) (f : A → M B) s :
  (∀ a s1, m s = (Normal a, s1) → aborts (f a) s1) → aborts (m ≫= f) s.
Proof.
  intros Hf. destruct (bind_cases m f s) as [(a & s1 & Hm & Heq)|(e & s1 & Hm & Heq)].
  - unfold aborts. rewrite Heq. by apply Hf.
  - by exists e, s1.
Qed.

Lemma forEachM_aborts {A L} (body : A → L → M L) (I : State → Prop) x xs :
  x ∈ xs →
  (∀ y, y ∈ xs → y = x ∨ ∀ acc s, I s → I (body y acc s).2) →
  (∀ acc s, I s → aborts (body x acc) s) →
  ∀ acc s, I s → aborts (forEachM body xs acc) s.
Proof. apply forEachM_throws. Qed.

(** ** The validators in development mode *)

Section Validators.
Context `{!Collaborators}.

Lemma validateMethodDecoratedWithApi_dev Ctor name s :
  validateMethodDecoratedWithApi false Ctor name s
  = if invalidMethodDescriptor (ownDescriptor Ctor name s)
    then (Throw (Error (apiMethodDiagnostic name)), s)
    else (Normal (), s).
Proof.
  unfold validateMethodDecoratedWithApi, ownDescriptor. simpl.
  unfold mbind, M_bind, getOwnPropertyDescriptor.
  by destruct (invalidMethodDescriptor _).
Qed.

Lemma validateMethodDecoratedWithWire_dev Ctor name s :
  validateMethodDecoratedWithWire false Ctor name s
  = if invalidMethodDescriptor (ownDescriptor Ctor name s)
    then (Throw (Error (wireMethodDiagnostic name)), s)
    else (Normal (), s).
Proof.
  unfold validateMethodDecoratedWithWire, ownDescriptor. simpl.
  unfold mbind, M_bind, getOwnPropertyDescriptor.
  by destruct (invalidMethodDescriptor _).
Qed.

Lemma validateFieldDecoratedWithWire_dev Ctor name s :
  validateFieldDecoratedWithWire false Ctor name s
  = match ownDescriptor Ctor name s with
    | Some _ => (Throw (Error (wireFieldDiagnostic name)), s)
    | None => (Normal (), s)
    end.
Proof.
  unfold validateFieldDecoratedWithWire, ownDescriptor. simpl.
  unfold mbind, M_bind, getOwnPropertyDescriptor.
  by destruct (own _ !! _).
Qed.

Lemma validateAccessorDecoratedWithApi_dev Ctor name s :
  validateAccessorDecoratedWithApi false Ctor name s
  = match ownDescriptor Ctor name s with
    | None => (Throw (Error (missingAccessorDiagnostic name)), s)
    | Some d =>
        if isFunction (desc_set d) then
          if isFunction (desc_get d) then (Normal (), s)
          else (Throw (Error (missingGetterDiagnostic Ctor name)), s)
        else if isFunction (desc_get d) then (Normal (), s)
        else (Throw (Error ("Compiler Error: Missing @api get " +:+ name
                            +:+ " accessor declaration.")), s)
    end.
Proof.
  unfold validateAccessorDecoratedWithApi, ownDescriptor. simpl.
  unfold mbind, M_bind, getOwnPropertyDescriptor.
  destruct (own _ !! _) as [d|]; [|done].
  by destruct (isFunction (desc_set d)), (isFunction (desc_get d)).
Qed.

Lemma validators_production Ctor name s :
  validateMethodDecoratedWithApi true Ctor name s = (Normal (), s)
  ∧ validateMethodDecoratedWithWire true Ctor name s = (Normal (), s)
  ∧ validateFieldDecoratedWithWire true Ctor name s = (Normal (), s)
  ∧ validateAccessorDecoratedWithApi true Ctor name s = (Normal (), s).
Proof. done. Qed.

Lemma publicPropsBody_aborts Ctor name def acc s :
  PropCompilerDef.config def ≠ Field →
  rejectedAccessor (ownDescriptor Ctor name s) →
  aborts (publicPropsBody false Ctor (name, def) acc) s.
Proof.
  intros Hkind Hrej. unfold publicPropsBody.
  rewrite bool_decide_eq_true_2 by (destruct (PropCompilerDef.config def); done).
  do 2 apply aborts_bind_l. simpl.
  exists (Error match ownDescriptor Ctor name s with
                | None => missingAccessorDiagnostic name
                | Some d =>
                    if isFunction (desc_set d) then missingGetterDiagnostic Ctor name
                    else "Compiler Error: Missing @api get " +:+ name
                         +:+ " accessor declaration."
                end), s.
  rewrite validateAccessorDecoratedWithApi_dev.
  destruct (ownDescriptor Ctor name s) as [d|]; [|done].
  simpl in Hrej. rewrite Hrej. by destruct (isFunction (desc_set d)).
Qed.

Lemma frames_own_publicPropsBody production Ctor Ctor' name entry acc :
  name ≠ entry.1 →
  frames (sameOn (ownDescriptor Ctor' name)) (publicPropsBody production Ctor entry acc).
Proof.
  intros Hne. apply frames_publicPropsBody; [apply _|]. intros.
  by apply frames_definePropertyOnPrototype_other.
Qed.

Lemma frames_own_wireBody production Ctor Ctor' name entry acc :
  name ≠ entry.1 →
  frames (sameOn (ownDescriptor Ctor' name)) (wireBody production Ctor entry acc).
Proof.
  intros Hne. apply frames_wireBody; [apply _| | |]; intros.
  - by apply frames_definePropertyOnPrototype_other.
  - by apply frames_storeWiredMethodMeta.
  - by apply frames_storeWiredFieldMeta.
Qed.

Lemma frames_own_publicProps production Ctor Ctor' name x acc :
  name ∉ keys (default [] x) →
  frames (sameOn (ownDescriptor Ctor' name))
    (whenDefined x (λ r, forEachM (publicPropsBody production Ctor) (forInEntries r)) acc).
Proof.
  intros Hname. apply frames_whenDefined; [apply _|]. intros r ->.
  apply frames_forEachM; [apply _|]. intros e He acc'.
  apply frames_own_publicPropsBody. intros ->. apply Hname. simpl.
  rewrite elem_of_forInEntries in He. unfold keys. apply list_elem_of_fmap. by exists e.
Qed.

(** An accessor-kind public prop whose own descriptor the validator
    rejects makes the first loop, hence registration, abort. *)
Lemma registerDecorators_aborts_publicProps Ctor meta props name def s :
  RegisterDecoratorMeta.publicProps meta = Some props →
  NoDup (keys props) →
  (name, def) ∈ props →
  PropCompilerDef.config def ≠ Field →
  rejectedAccessor (ownDescriptor Ctor name s) →
  aborts (registerDecorators false Ctor meta) s.
Proof.
  intros Hprops Hnd Hin Hkind Hrej. unfold registerDecorators.
  apply aborts_bind_l. rewrite Hprops. simpl.
  apply (forEachM_aborts _
           (λ s', ownDescriptor Ctor name s' = ownDescriptor Ctor name s) (name, def)).
  - by rewrite elem_of_forInEntries.
  - intros [k v] Hy. destruct (decide (k = name)) as [->|Hne].
    + left. f_equal. rewrite elem_of_forInEntries in Hy.
      by eapply NoDup_keys_entry.
    + right. intros acc s1 Hs1.
      rewrite <- Hs1. by apply (frames_own_publicPropsBody false Ctor Ctor name (k, v)).
  - intros acc s1 Hs1. apply publicPropsBody_aborts; [done|]. by rewrite Hs1.
  - done.
Qed.

Lemma registerDecorators_Throw_registry production Ctor meta s e s' :
  registerDecorators production Ctor meta s = (Throw e, s') →
  signedDecoratorToMetaMap s' = signedDecoratorToMetaMap s.
Proof.
  intros Hrun.
  destruct (registerDecorators_outcome production Ctor meta s)
    as [(s1 & H1 & _)|(e1 & s1 & H1 & Hreg)]; congruence.
Qed.

Lemma registerDecorators_Normal_registry production Ctor meta s r s' :
  registerDecorators production Ctor meta s = (Normal r, s') →
  r = Ctor
  ∧ signedDecoratorToMetaMap s' = <[Ctor := resolve meta]> (signedDecoratorToMetaMap s).
Proof.
  intros Hrun.
  destruct (registerDecorators_outcome production Ctor meta s)
    as [(s1 & H1 & Hreg)|(e1 & s1 & H1 & _)]; [|congruence].
  rewrite Hrun in H1. by simplify_eq.
Qed.
End Validators.

(** C1. A class registered, outside production mode, with a Get or GetSet
    public prop whose prototype has no own descriptor under that name: the
    registration aborts, the registry is exactly as it was before the call,
    and for a class without an earlier entry there still is none, so
    [getDecoratorsMeta] keeps returning the shared default. *)
Theorem missing_accessor_aborts_before_registry `{!Collaborators}
    Ctor meta props name def s :
  RegisterDecoratorMeta.publicProps meta = Some props →
  NoDup (keys props) →
  (name, def) ∈ props →
  PropCompilerDef.config def = Get ∨ PropCompilerDef.config def = GetSet →
  ownDescriptor Ctor name s = None →
  ∃ e s',
    registerDecorators false Ctor meta s = (Throw e, s')
    ∧ signedDecoratorToMetaMap s' = signedDecoratorToMetaMap s
    ∧ getDecoratorsMeta Ctor s' = getDecoratorsMeta Ctor s
    ∧ (signedDecoratorToMetaMap s !! Ctor = None →
       signedDecoratorToMetaMap s' !! Ctor = None
       ∧ getDecoratorsMeta Ctor s' = defaultMeta).
Proof.
  intros Hprops Hnd Hin Hkind Hnone.
  destruct (registerDecorators_aborts_publicProps Ctor meta props name def s)
    as (e & s' & Hrun); try done.
  { by destruct Hkind as [-> | ->]. }
  { by rewrite Hnone. }
  exists e, s'. pose proof (registerDecorators_Throw_registry _ _ _ _ _ _ Hrun) as Hreg.
  split; [done|]. split; [done|]. unfold getDecoratorsMeta. rewrite Hreg.
  split; [done|]. by intros ->.
Qed.

Section MethodValidation.
Context `{!Collaborators}.

Lemma aborts_keeps_registry production Ctor meta s :
  aborts (registerDecorators production Ctor meta) s →
  ∃ e s', registerDecorators production Ctor meta s = (Throw e, s')
          ∧ signedDecoratorToMetaMap s' = signedDecoratorToMetaMap s.
Proof.
  intros (e & s' & Hrun). exists e, s'. split; [done|].
  by eapply registerDecorators_Throw_registry.
Qed.

Lemma wrongMethodDescriptor_invalid d :
  wrongMethodDescriptor d ↔ invalidMethodDescriptor d = true.
Proof.
  unfold wrongMethodDescriptor, invalidMethodDescriptor. split.
  - intros [->|[(desc & -> & Hv)|(desc & -> & Hw)]]; [done| |].
    + by rewrite Hv.
    + rewrite Hw. simpl. by rewrite orb_true_r.
  - destruct d as [desc|]; [|by left]. intros Hinv. right.
    apply orb_true_iff in Hinv as [Hv|Hw].
    + left. exists desc. split; [done|]. by apply negb_true_iff.
    + right. exists desc. split; [done|].
      destruct (desc_writable desc) as [| |[]| | | |]; done.
Qed.

Lemma publicMethodsBody_aborts Ctor name acc s :
  invalidMethodDescriptor (ownDescriptor Ctor name s) = true →
  publicMethodsBody false Ctor name acc s = (Throw (Error (apiMethodDiagnostic name)), s).
Proof.
  intros Hinv. unfold publicMethodsBody. apply bind_Throw. simpl.
  by rewrite validateMethodDecoratedWithApi_dev, Hinv.
Qed.

Lemma wireBody_method_aborts Ctor name def acc s :
  WireCompilerDef.method def = VNumber 1 →
  invalidMethodDescriptor (ownDescriptor Ctor name s) = true →
  wireBody false Ctor (name, def) acc s
  = (Throw (Error (wireMethodDiagnostic name)), s).
Proof.
  intros Hm Hinv. destruct acc as [wm wf]. unfold wireBody, strictEquals.
  rewrite bool_decide_eq_true_2 by done. apply bind_Throw. simpl.
  by rewrite validateMethodDecoratedWithWire_dev, Hinv.
Qed.

Lemma registerDecorators_aborts_publicMethods Ctor meta name s :
  invalidMethodDescriptor (ownDescriptor Ctor name s) = true →
  name ∉ keys (default [] (RegisterDecoratorMeta.publicProps meta)) →
  name ∈ default [] (RegisterDecoratorMeta.publicMethods meta) →
  aborts (registerDecorators false Ctor meta) s.
Proof.
  intros Hinv Hprops Hin. unfold registerDecorators.
  apply aborts_bind. intros apiFields s1 Hloop1.
  pose proof (frames_own_publicProps false Ctor Ctor name _ [] Hprops s) as Hown.
  rewrite Hloop1 in Hown. unfold sameOn in Hown. simpl in Hown.
  apply aborts_bind_l.
  destruct (RegisterDecoratorMeta.publicMethods meta) as [methods|];
    [|by apply elem_of_nil in Hin].
  simpl in *.
  apply (forEachM_aborts _
           (λ s', ownDescriptor Ctor name s' = ownDescriptor Ctor name s) name);
    [done| | |done].
  - intros y _. right. intros acc s2 Hs2. rewrite <- Hs2.
    by apply (frames_publicMethodsBody false (sameOn (ownDescriptor Ctor name))).
  - intros acc s2 Hs2. eexists _, _. apply publicMethodsBody_aborts. by rewrite Hs2.
Qed.

Lemma registerDecorators_aborts_wire_method Ctor meta wire name def s :
  invalidMethodDescriptor (ownDescriptor Ctor name s) = true →
  name ∉ keys (default [] (RegisterDecoratorMeta.publicProps meta)) →
  RegisterDecoratorMeta.wire meta = Some wire →
  NoDup (keys wire) →
  (name, def) ∈ wire →
  WireCompilerDef.method def = VNumber 1 →
  aborts (registerDecorators false Ctor meta) s.
Proof.
  intros Hinv Hprops Hwire Hnd Hin Hm. unfold registerDecorators.
  apply aborts_bind. intros apiFields s1 Hloop1.
  pose proof (frames_own_publicProps false Ctor Ctor name _ [] Hprops s) as Hown.
  rewrite Hloop1 in Hown. unfold sameOn in Hown. simpl in Hown.
  apply aborts_bind. intros apiMethods s2 Hloop2.
  pose proof (frames_any_publicMethods false Ctor (sameOn (ownDescriptor Ctor name))
                (RegisterDecoratorMeta.publicMethods meta) [] s1) as Hown2.
  rewrite Hloop2 in Hown2. unfold sameOn in Hown2. simpl in Hown2.
  apply aborts_bind_l. rewrite Hwire. simpl.
  apply (forEachM_aborts _
           (λ s', ownDescriptor Ctor name s' = ownDescriptor Ctor name s) (name, def));
    [by rewrite elem_of_forInEntries | | |congruence].
  - intros [k v] Hy. destruct (decide (k = name)) as [->|Hne].
    + left. f_equal. rewrite elem_of_forInEntries in Hy. by eapply NoDup_keys_entry.
    + right. intros acc s3 Hs3. rewrite <- Hs3.
      by apply (frames_own_wireBody false Ctor Ctor name (k, v)).
  - intros acc s3 Hs3. eexists _, _. apply wireBody_method_aborts; [done|].
    by rewrite Hs3.
Qed.
End MethodValidation.

(** C5. Outside production mode, for a public prop of an accessor kind
    (Set, Get or GetSet): the validator needs an own descriptor under the
    name, and it rejects a descriptor whose [set] is a function while its
    [get] is not; each case has its diagnostic, and in each the
    registration aborts and leaves the registry alone. *)
Theorem accessor_needs_descriptor_and_getter `{!Collaborators}
    Ctor meta props name def s :
  RegisterDecoratorMeta.publicProps meta = Some props →
  NoDup (keys props) →
  (name, def) ∈ props →
  PropCompilerDef.config def ≠ Field →
  (ownDescriptor Ctor name s = None →
   validateAccessorDecoratedWithApi false Ctor name s
   = (Throw (Error ("Compiler Error: Invalid @api get " +:+ name
                    +:+ " accessor declaration.")), s)
   ∧ ∃ e s',
       registerDecorators false Ctor meta s = (Throw e, s')
       ∧ signedDecoratorToMetaMap s' = signedDecoratorToMetaMap s)
  ∧ (∀ d,
       ownDescriptor Ctor name s = Some d →
       isFunction (desc_set d) = true →
       isFunction (desc_get d) = false →
       validateAccessorDecoratedWithApi false Ctor name s
       = (Throw (Error ("Compiler Error: Missing getter for property " +:+ name
                        +:+ " decorated with @api in " +:+ ctorToString Ctor
                        +:+ ". You cannot have a setter without the corresponding getter.")),
          s)
       ∧ ∃ e s',
           registerDecorators false Ctor meta s = (Throw e, s')
           ∧ signedDecoratorToMetaMap s' = signedDecoratorToMetaMap s).
Proof.
  intros Hprops Hnd Hin Hkind. split.
  - intros Hnone. split.
    + by rewrite validateAccessorDecoratedWithApi_dev, Hnone.
    + apply aborts_keeps_registry.
      eapply registerDecorators_aborts_publicProps; try done. by rewrite Hnone.
  - intros d Hd Hset Hget. split.
    + by rewrite validateAccessorDecoratedWithApi_dev, Hd, Hset, Hget.
    + apply aborts_keeps_registry.
      eapply registerDecorators_aborts_publicProps; try done. by rewrite Hd.
Qed.

(** C6. Outside production mode a method name whose own descriptor on the
    prototype is missing, or holds something that is not a function, or is
    explicitly non-writable, is rejected by both method validators with a
    diagnostic that quotes the name. A registration that lists the name in
    [publicMethods], or binds it as a wired method, aborts and leaves the
    registry alone (the name not being a public prop as well, whose
    descriptor the first loop would have replaced before the check); and
    registering [publicMethods = [name]] alone aborts with exactly the
    [@api] method diagnostic. *)
Theorem invalid_method_descriptor_aborts `{!Collaborators} Ctor meta name s :
  wrongMethodDescriptor (ownDescriptor Ctor name s) →
  validateMethodDecoratedWithApi false Ctor name s
    = (Throw (Error ("Compiler Error: Invalid @api " +:+ name +:+ " method declaration.")), s)
  ∧ validateMethodDecoratedWithWire false Ctor name s
    = (Throw (Error ("Compiler Error: Invalid @wire(...) " +:+ name
                     +:+ " method declaration.")), s)
  ∧ (name ∉ keys (default [] (RegisterDecoratorMeta.publicProps meta)) →
     name ∈ default [] (RegisterDecoratorMeta.publicMethods meta) →
     ∃ e s', registerDecorators false Ctor meta s = (Throw e, s')
             ∧ signedDecoratorToMetaMap s' = signedDecoratorToMetaMap s)
  ∧ (∀ wire def,
       name ∉ keys (default [] (RegisterDecoratorMeta.publicProps meta)) →
       RegisterDecoratorMeta.wire meta = Some wire →
       NoDup (keys wire) →
       (name, def) ∈ wire →
       WireCompilerDef.method def = VNumber 1 →
       ∃ e s', registerDecorators false Ctor meta s = (Throw e, s')
               ∧ signedDecoratorToMetaMap s' = signedDecoratorToMetaMap s)
  ∧ registerDecorators false Ctor
      (RegisterDecoratorMeta.mk (Some [name]) None None None None) s
    = (Throw (Error ("Compiler Error: Invalid @api " +:+ name +:+ " method declaration.")), s).
Proof.
  intros Hwrong. apply wrongMethodDescriptor_invalid in Hwrong.
  split; [by rewrite validateMethodDecoratedWithApi_dev, Hwrong|].
  split; [by rewrite validateMethodDecoratedWithWire_dev, Hwrong|].
  split; [|split].
  - intros Hprops Hin. apply aborts_keeps_registry.
    by apply registerDecorators_aborts_publicMethods with name.
  - intros wire def Hprops Hwire Hnd Hin Hm. apply aborts_keeps_registry.
    by apply registerDecorators_aborts_wire_method with wire name def.
  - unfold registerDecorators.
    cbn [RegisterDecoratorMeta.publicProps RegisterDecoratorMeta.publicMethods whenDefined].
    rewrite (bind_Normal (mret []) _ s [] s) by done.
    apply bind_Throw. rewrite forEachM_cons. apply bind_Throw.
    by apply publicMethodsBody_aborts.
Qed.

(** ** One step of the wire loop *)

Section WireStep.
Context `{!Collaborators} (production : bool).

Lemma wireBody_method Ctor name def wm wf s :
  WireCompilerDef.method def = VNumber 1 →
  wireBody production Ctor (name, def) (wm, wf) s
  = if negb production && invalidMethodDescriptor (ownDescriptor Ctor name s)
    then (Throw (Error (wireMethodDiagnostic name)), s)
    else
      match ordinaryGet Ctor (prototype s Ctor) name s with
      | inr existing =>
          (Normal (wm ++ [name], wf), afterMethodBinding Ctor name def existing s)
      | inl e => (Throw e, s)
      end.
Proof.
  intros Hm. unfold wireBody, strictEquals.
  rewrite bool_decide_eq_true_2 by done.
  assert (∀ s0,
    (existing ← protoGet Ctor name;
     storeWiredMethodMeta Ctor name (WireCompilerDef.adapter def) existing
       (WireCompilerDef.config def);;
     mret (ArrayPush wm name, wf)) s0
    = match ordinaryGet Ctor (prototype s0 Ctor) name s0 with
      | inr existing =>
          (Normal (wm ++ [name], wf), afterMethodBinding Ctor name def existing s0)
      | inl e => (Throw e, s0)
      end) as Hrest.
  { intros s0. unfold mbind, M_bind, protoGet. by destruct (ordinaryGet _ _ _ _). }
  destruct production; simpl.
  - apply Hrest.
  - unfold mbind at 1, M_bind at 1.
    rewrite validateMethodDecoratedWithWire_dev.
    destruct (invalidMethodDescriptor _); [done|apply Hrest].
Qed.

Lemma wireBody_field Ctor name def wm wf s :
  WireCompilerDef.method def ≠ VNumber 1 →
  wireBody production Ctor (name, def) (wm, wf) s
  = if negb production && bool_decide (is_Some (ownDescriptor Ctor name s))
    then (Throw (Error (wireFieldDiagnostic name)), s)
    else
      match defineProperty (prototype s Ctor) name (internalWireFieldDecorator name) with
      | Some O' => (Normal (wm, wf ++ [name]), afterFieldBinding Ctor name def O' s)
      | None =>
          (Throw (definePropertyError (prototype s Ctor) name),
           mkState (prototypes s) (signedDecoratorToMetaMap s)
             (wiring s ++ [StoreWiredFieldMeta Ctor name (WireCompilerDef.adapter def)
                             (WireCompilerDef.config def)]))
      end.
Proof.
  intros Hm. unfold wireBody, strictEquals.
  rewrite bool_decide_eq_false_2 by done.
  assert (∀ s0,
    (storeWiredFieldMeta Ctor name (WireCompilerDef.adapter def)
       (WireCompilerDef.config def);;
     definePropertyOnPrototype Ctor name (internalWireFieldDecorator name);;
     mret (wm, ArrayPush wf name)) s0
    = match defineProperty (prototype s0 Ctor) name (internalWireFieldDecorator name) with
      | Some O' => (Normal (wm, wf ++ [name]), afterFieldBinding Ctor name def O' s0)
      | None =>
          (Throw (definePropertyError (prototype s0 Ctor) name),
           mkState (prototypes s0) (signedDecoratorToMetaMap s0)
             (wiring s0 ++ [StoreWiredFieldMeta Ctor name (WireCompilerDef.adapter def)
                              (WireCompilerDef.config def)]))
      end) as Hrest.
  { intros s0. unfold mbind, M_bind, storeWiredFieldMeta, definePropertyOnPrototype,
      prototype. simpl. by destruct (defineProperty _ _ _). }
  destruct production; simpl.
  - apply Hrest.
  - unfold mbind at 1, M_bind at 1.
    rewrite validateFieldDecoratedWithWire_dev.
    destruct (ownDescriptor Ctor name s) as [d|] eqn:Hd.
    + by rewrite bool_decide_eq_true_2.
    + rewrite bool_decide_eq_false_2 by (by intros [? ?]). apply Hrest.
Qed.

Lemma defineProperty_lookup O P Desc O' :
  defineProperty O P Desc = Some O' → own O' !! P = Some Desc.
Proof. intros Hdef. apply defineProperty_Some in Hdef as [-> _]. apply lookup_insert_eq. Qed.

Lemma afterFieldBinding_own Ctor name def O' s :
  ownDescriptor Ctor name (afterFieldBinding Ctor name def O' s) = own O' !! name.
Proof.
  unfold ownDescriptor, prototype, afterFieldBinding. simpl.
  by rewrite lookup_total_insert_eq.
Qed.
End WireStep.

(** ** The wiring log of a registration *)

Section WiringLog.
Context `{!Collaborators} (production : bool) (Ctor : ComponentConstructor).

Lemma wireBody_wiring entry acc s a s' :
  wireBody production Ctor entry acc s = (Normal a, s') →
  ∃ call, wiring s' = wiring s ++ [call] ∧ wiringCallFor Ctor entry call.
Proof.
  destruct entry as [name def], acc as [wm wf]. unfold wiringCallFor.
  destruct (decide (isMethodBinding (name, def))) as [Hm|Hm]; unfold isMethodBinding in Hm;
    simpl in Hm.
  - rewrite wireBody_method by done.
    destruct (_ && _); [done|].
    destruct (ordinaryGet _ _ _ _) as [e|existing]; intros Hrun; simplify_eq.
    eexists. split; [done|]. by eexists.
  - rewrite wireBody_field by done.
    destruct (_ && _); [done|].
    destruct (defineProperty _ _ _); intros Hrun; simplify_eq. by eexists.
Qed.

Lemma wire_loop_wiring xs acc s a s' :
  forEachM (wireBody production Ctor) xs acc s = (Normal a, s') →
  ∃ calls, wiring s' = wiring s ++ calls ∧ Forall2 (wiringCallFor Ctor) xs calls.
Proof.
  revert acc s. induction xs as [|x xs IH]; intros acc s Hrun.
  - inversion Hrun; subst. exists []. by rewrite app_nil_r.
  - rewrite forEachM_cons in Hrun.
    apply bind_Normal_inv in Hrun as (acc' & s1 & Hx & Hrest).
    apply wireBody_wiring in Hx as (call & Hw1 & Hcall).
    apply IH in Hrest as (calls & Hw & Hcalls).
    exists (call :: calls). split; [|by constructor].
    rewrite Hw, Hw1. by rewrite <- app_assoc.
Qed.

Lemma frames_wiring_publicProps x acc :
  frames (sameOn wiring)
    (whenDefined x (λ r, forEachM (publicPropsBody production Ctor) (forInEntries r)) acc).
Proof.
  apply frames_publicProps; [apply _|].
  intros. apply frames_definePropertyOnPrototype_wiring.
Qed.

Lemma frames_wiring_track x acc :
  frames (sameOn wiring)
    (whenDefined x (λ r, forEachM (trackBody production Ctor) (forInEntries r)) acc).
Proof.
  apply frames_track; [apply _|].
  intros. apply frames_definePropertyOnPrototype_wiring.
Qed.

Local Ltac run_loop Hrun s1 Hloop Hframe :=
  apply bind_Normal_inv in Hrun as (? & s1 & Hloop & Hrun);
  match type of Hloop with
  | ?m ?s = _ => let Hf := fresh "Hf" in
                 pose proof (Hframe s) as Hf; rewrite Hloop in Hf;
                 unfold sameOn in Hf; simpl in Hf
  end.

(** A completed registration has made exactly the calls of its wire
    entries, one per entry, in enumeration order. *)
Lemma registerDecorators_wiring meta s r s' :
  registerDecorators production Ctor meta s = (Normal r, s') →
  ∃ calls,
    wiring s' = wiring s ++ calls
    ∧ Forall2 (wiringCallFor Ctor)
        (default [] (forInEntries <$> RegisterDecoratorMeta.wire meta)) calls.
Proof.
  unfold registerDecorators. intros Hrun.
  run_loop Hrun s1 H1 (frames_wiring_publicProps (RegisterDecoratorMeta.publicProps meta) []).
  run_loop Hrun s2 H2 (frames_any_publicMethods production Ctor (sameOn wiring)
                         (RegisterDecoratorMeta.publicMethods meta) []).
  apply bind_Normal_inv in Hrun as (wired & s3 & Hwire & Hrun).
  run_loop Hrun s4 H4 (frames_wiring_track (RegisterDecoratorMeta.track meta) ()).
  run_loop Hrun s5 H5 (frames_any_fields production Ctor (sameOn wiring)
                         (RegisterDecoratorMeta.fields meta) ()).
  injection Hrun as _ <-. simpl.
  assert (∃ calls, wiring s3 = wiring s2 ++ calls
                   ∧ Forall2 (wiringCallFor Ctor)
                       (default [] (forInEntries <$> RegisterDecoratorMeta.wire meta))
                       calls) as (calls & Hcalls & Hall).
  { destruct (RegisterDecoratorMeta.wire meta) as [w|]; simpl in *.
    - by eapply wire_loop_wiring.
    - injection Hwire as _ <-. exists []. by rewrite app_nil_r. }
  exists calls. split; [congruence|done].
Qed.
End WiringLog.

Lemma defineProperty_configurable O P Desc :
  (∀ d, own O !! P = Some d → desc_configurable d = true) →
  (own O !! P = None → extensible O = true) →
  defineProperty O P Desc = Some (mkObj (<[P := Desc]> (own O)) (extensible O)).
Proof.
  intros Hconf Hext. unfold defineProperty.
  destruct (own O !! P) as [d|].
  - by rewrite (Hconf d).
  - by rewrite Hext.
Qed.

Lemma wiringCallFor_names Ctor entries calls :
  Forall2 (wiringCallFor Ctor) entries calls → callName <$> calls = keys entries.
Proof.
  unfold keys. induction 1 as [|entry call entries calls Hcall _ IH]; [done|].
  rewrite !fmap_cons, IH. f_equal. unfold wiringCallFor in Hcall.
  destruct (decide _); [destruct Hcall as [existing ->]|subst call]; done.
Qed.

Lemma definePropertyOnPrototype_Normal Ctor P Desc s a s' :
  definePropertyOnPrototype Ctor P Desc s = (Normal a, s') →
  ownDescriptor Ctor P s' = Some Desc.
Proof.
  unfold definePropertyOnPrototype, ownDescriptor, prototype.
  destruct (defineProperty _ _ _) as [O'|] eqn:Hdef; [|done].
  intros Hrun. injection Hrun as _ <-. simpl.
  rewrite lookup_total_insert_eq. apply defineProperty_Some in Hdef as [-> _].
  apply lookup_insert_eq.
Qed.

Lemma forInEntries_singleton {V} (kv : string * V) : forInEntries [kv] = [kv].
Proof. apply Permutation_singleton_r, forInEntries_Permutation. Qed.

(** A completed registration whose [track] is the single name [z] leaves
    the track descriptor as the own descriptor of the prototype under [z]. *)
Lemma registerDecorators_track_installed `{!Collaborators}
    production Ctor meta z v s r s' :
  RegisterDecoratorMeta.track meta = Some [(z, v)] →
  registerDecorators production Ctor meta s = (Normal r, s') →
  ownDescriptor Ctor z s' = Some (internalTrackDecorator z).
Proof.
  intros Htrack Hrun. unfold registerDecorators in Hrun.
  apply bind_Normal_inv in Hrun as (apiFields & s1 & _ & Hrun).
  apply bind_Normal_inv in Hrun as (apiMethods & s2 & _ & Hrun).
  apply bind_Normal_inv in Hrun as (wired & s3 & _ & Hrun).
  apply bind_Normal_inv in Hrun as ([] & s4 & Hloop4 & Hrun).
  apply bind_Normal_inv in Hrun as ([] & s5 & Hloop5 & Hrun).
  injection Hrun as _ <-.
  rewrite Htrack in Hloop4. simpl in Hloop4.
  rewrite forInEntries_singleton, forEachM_cons in Hloop4.
  apply bind_Normal_inv in Hloop4 as ([] & s4' & Hbody & Hnil).
  injection Hnil as Hs4. unfold trackBody in Hbody.
  apply bind_Normal_inv in Hbody as ([] & s3' & _ & Hdefine).
  apply definePropertyOnPrototype_Normal in Hdefine.
  pose proof (frames_any_fields production Ctor (sameOn (ownDescriptor Ctor z))
                (RegisterDecoratorMeta.fields meta) () s4) as Hkeep.
  rewrite Hloop5 in Hkeep. unfold sameOn in Hkeep. simpl in Hkeep.
  unfold ownDescriptor, prototype in *. simpl. congruence.
Qed.

Lemma registerDecorators_stored `{!Collaborators} production Ctor meta s r s' :
  registerDecorators production Ctor meta s = (Normal r, s') →
  signedDecoratorToMetaMap s' !! Ctor = Some (resolve meta)
  ∧ getDecoratorsMeta Ctor s' = resolve meta.
Proof.
  intros Hrun. apply registerDecorators_Normal_registry in Hrun as [_ Hreg].
  unfold getDecoratorsMeta. rewrite Hreg, lookup_insert_eq. done.
Qed.

(** C2. What the wire loop does with one entry, and with all of them.
    An entry whose method flag is set ([method: 1]) has its name pushed on
    [wiredMethods] and is handed to [storeWiredMethodMeta] with the class,
    the name, the adapter, the member that reading the prototype under the
    name yields and the config callback, the prototypes staying as they are;
    outside production mode that member is the function of the own data
    descriptor.
    An entry without the flag is handed to [storeWiredFieldMeta] with the
    class, the name, the adapter and the config callback, has its name
    pushed on [wiredFields], and leaves the wire-field descriptor as the own
    descriptor under the name. A completed registration has made exactly one
    such call per wire entry, in enumeration order (so, the names of an
    object being distinct, one call per name), and has stored the names
    split accordingly. *)
Theorem wire_entries_are_dispatched `{!Collaborators} production Ctor :
  (∀ name def wm wf s r s',
     wireBody production Ctor (name, def) (wm, wf) s = (Normal r, s') →
     (WireCompilerDef.method def = VNumber 1 →
      ∃ existing,
        ordinaryGet Ctor (prototype s Ctor) name s = inr existing
        ∧ r = (wm ++ [name], wf)
        ∧ wiring s' = wiring s
                      ++ [StoreWiredMethodMeta Ctor name (WireCompilerDef.adapter def)
                            existing (WireCompilerDef.config def)]
        ∧ prototypes s' = prototypes s
        ∧ (production = false →
           ∃ f w e c,
             ownDescriptor Ctor name s = Some (DataDescriptor (VFunction f) w e c)
             ∧ existing = VFunction f))
     ∧ (WireCompilerDef.method def = VUndefined →
        r = (wm, wf ++ [name])
        ∧ wiring s' = wiring s
                      ++ [StoreWiredFieldMeta Ctor name (WireCompilerDef.adapter def)
                            (WireCompilerDef.config def)]
        ∧ ownDescriptor Ctor name s' = Some (internalWireFieldDecorator name)))
  ∧ (∀ meta s r s',
       registerDecorators production Ctor meta s = (Normal r, s') →
       let entries := default [] (forInEntries <$> RegisterDecoratorMeta.wire meta) in
       ∃ calls,
         wiring s' = wiring s ++ calls
         ∧ Forall2 (wiringCallFor Ctor) entries calls
         ∧ callName <$> calls = keys entries
         ∧ (NoDup (keys (default [] (RegisterDecoratorMeta.wire meta))) →
            NoDup (callName <$> calls))
         ∧ DecoratorMeta.wiredMethods (getDecoratorsMeta Ctor s')
           = keys (filter isMethodBinding entries)
         ∧ DecoratorMeta.wiredFields (getDecoratorsMeta Ctor s')
           = keys (filter (λ e, ¬ isMethodBinding e) entries)).
Proof.
  split.
  - intros name def wm wf s r s' Hrun. split; intros Hm.
    + rewrite wireBody_method in Hrun by done.
      destruct (negb production && _) eqn:Hcheck; [done|].
      destruct (ordinaryGet _ _ _ _) as [e|existing] eqn:Hget; [done|].
      injection Hrun as <- <-. exists existing. repeat split; try done.
      intros ->. simpl in Hcheck. unfold ownDescriptor, ordinaryGet in *.
      destruct (own (prototype s Ctor) !! name) as [[v w e c|g st e c]|]; try done.
      simpl in Hcheck. destruct v; try done. injection Hget as <-. by exists f, w, e, c.
    + rewrite wireBody_field in Hrun by (by rewrite Hm).
      destruct (negb production && _); [done|].
      destruct (defineProperty _ _ _) as [O'|] eqn:Hdef; [|done].
      injection Hrun as <- <-. repeat split; try done.
      rewrite afterFieldBinding_own. by eapply defineProperty_lookup.
  - intros meta s r s' Hrun entries.
    destruct (registerDecorators_wiring production Ctor meta s r s' Hrun)
      as (calls & Hw & Hcalls).
    apply registerDecorators_stored in Hrun as [_ ->].
    pose proof (wiringCallFor_names Ctor _ _ Hcalls) as Hnames.
    exists calls. repeat split; try done.
    rewrite Hnames. unfold entries.
    destruct (RegisterDecoratorMeta.wire meta) as [w|]; simpl; [|constructor].
    apply forInKeys_NoDup.
Qed.

(** C9. The wire loop compares the method flag with the number 1 and with
    nothing else. An entry whose flag is 1 goes down the method path: its
    name is pushed on [wiredMethods], [storeWiredMethodMeta] is called and
    the prototypes stay as they are; when the path aborts, no call has been
    made. An entry whose flag is any other value ([true], [2], absent, ...)
    goes down the field path. Outside production mode a prototype that has
    an own member under the name makes that path abort with the wire-field
    diagnostic in an unchanged state: [storeWiredFieldMeta] is not called
    and nothing is installed over the member. In production mode, or when
    there is no own member, [storeWiredFieldMeta] is called with the class,
    the name, the adapter and the config callback, and then the wire-field
    descriptor is defined under the name: when [defineProperty] accepts it,
    the name is pushed on [wiredFields], not on [wiredMethods], and the
    descriptor is the own descriptor under the name; when it refuses, the
    path aborts with its [TypeError] and the prototypes are unchanged. In
    production mode, over a configurable member of an extensible prototype,
    the path completes and the descriptor replaces the member. *)
Theorem wire_flag_is_compared_with_one `{!Collaborators}
    production Ctor name def wm wf s :
  (WireCompilerDef.method def = VNumber 1 →
   match wireBody production Ctor (name, def) (wm, wf) s with
   | (Normal r, s') =>
       ∃ existing,
         r = (wm ++ [name], wf)
         ∧ wiring s' = wiring s
                       ++ [StoreWiredMethodMeta Ctor name (WireCompilerDef.adapter def)
                             existing (WireCompilerDef.config def)]
         ∧ prototypes s' = prototypes s
   | (Throw e, s') =>
       s' = s
       ∧ ((production = false
           ∧ invalidMethodDescriptor (ownDescriptor Ctor name s) = true
           ∧ e = Error ("Compiler Error: Invalid @wire(...) " +:+ name
                        +:+ " method declaration."))
          ∨ ordinaryGet Ctor (prototype s Ctor) name s = inl e)
   end)
  ∧ (WireCompilerDef.method def ≠ VNumber 1 →
     (production = false → is_Some (ownDescriptor Ctor name s) →
      wireBody production Ctor (name, def) (wm, wf) s
      = (Throw (Error ("Compiler Error: Invalid @wire(...) " +:+ name
                       +:+ " field declaration.")), s))
     ∧ (production = true ∨ ownDescriptor Ctor name s = None →
        ∀ c s',
          wireBody production Ctor (name, def) (wm, wf) s = (c, s') →
          wiring s' = wiring s
                      ++ [StoreWiredFieldMeta Ctor name (WireCompilerDef.adapter def)
                            (WireCompilerDef.config def)]
          ∧ match c with
            | Normal r =>
                r = (wm, wf ++ [name])
                ∧ ownDescriptor Ctor name s' = Some (internalWireFieldDecorator name)
            | Throw e =>
                defineProperty (prototype s Ctor) name (internalWireFieldDecorator name)
                = None
                ∧ e = definePropertyError (prototype s Ctor) name
                ∧ prototypes s' = prototypes s
            end)
     ∧ (production = true →
        (∀ d, ownDescriptor Ctor name s = Some d → desc_configurable d = true) →
        extensible (prototype s Ctor) = true →
        ∃ s',
          wireBody production Ctor (name, def) (wm, wf) s = (Normal (wm, wf ++ [name]), s')
          ∧ ownDescriptor Ctor name s' = Some (internalWireFieldDecorator name))).
Proof.
  split; intros Hm.
  - rewrite wireBody_method by done.
    destruct (negb production) eqn:Hmode; simpl.
    + destruct (invalidMethodDescriptor _) eqn:Hinv.
      * split; [done|]. left. by destruct production.
      * destruct (ordinaryGet _ _ _ _) as [e|existing] eqn:Hget; [by split; [|right]|].
        by exists existing.
    + destruct (ordinaryGet _ _ _ _) as [e|existing] eqn:Hget; [by split; [|right]|].
      by exists existing.
  - rewrite wireBody_field by done. split; [|split].
    + intros -> Hown. simpl. by rewrite bool_decide_eq_true_2.
    + intros Hcase c s' Hrun.
      assert (negb production && bool_decide (is_Some (ownDescriptor Ctor name s)) = false)
        as Hcheck.
      { destruct Hcase as [->|Hown]; [done|].
        rewrite bool_decide_eq_false_2; [by destruct production|].
        rewrite Hown. by intros [? ?]. }
      rewrite Hcheck in Hrun.
      destruct (defineProperty _ _ _) as [O'|] eqn:Hdef; injection Hrun as <- <-.
      * repeat split; try done.
        rewrite afterFieldBinding_own. by eapply defineProperty_lookup.
      * done.
    + intros -> Hconf Hext. simpl.
      rewrite defineProperty_configurable by done. eexists. split; [done|].
      rewrite afterFieldBinding_own. apply lookup_insert_eq.
Qed.

(** ** The shape of the enumeration order *)

Global Instance index_le_total {V} : Total (@index_le V).
Proof. intros a b. unfold index_le. lia. Qed.

Lemma Sorted_with_Forall {A} (R : relation A) (P : A → Prop) l :
  Sorted R l → Forall P l → Sorted (λ x y, R x y ∧ P x ∧ P y) l.
Proof.
  induction 1 as [|x l Hl IH Hhd]; intros HP; [constructor|].
  apply Forall_cons in HP as [Hx HP]. constructor; [by apply IH|].
  destruct Hhd as [|y l' Hxy]; constructor.
  apply Forall_cons in HP as [Hy _]. done.
Qed.

Lemma keys_filter {V} (P : string → Prop) (Q : string * V → Prop)
    `{!∀ k, Decision (P k)} `{!∀ e, Decision (Q e)} (r : JsRecord V) :
  (∀ e, Q e ↔ P e.1) → keys (filter Q r) = filter P (keys r).
Proof.
  intros HQ. unfold keys. induction r as [|[k v] r IH]; [done|].
  rewrite fmap_cons, (filter_cons Q (k, v)), (filter_cons P).
  destruct (decide (Q (k, v))) as [Hq|Hq], (decide (P (k, v).1)) as [Hp|Hp].
  - rewrite fmap_cons. by rewrite IH.
  - by apply HQ in Hq.
  - by apply HQ in Hp.
  - exact IH.
Qed.

Lemma indexed_Forall {V} (r : JsRecord V) :
  Forall (λ x, arrayIndex x.2.1 = Some x.1) (indexed r).
Proof.
  unfold indexed. induction r as [|[k v] r IH]; [constructor|]. simpl.
  destruct (arrayIndex k) as [i|] eqn:Hk; simpl; [|done]. by constructor.
Qed.

(** The array-index names come first, ascending; the other names follow in
    creation order. *)
Lemma forInKeys_shape {V} (r : JsRecord V) :
  ∃ indexNames,
    forInKeys r = indexNames ++ filter (λ k, arrayIndex k = None) (keys r)
    ∧ indexNames ≡ₚ filter (λ k, arrayIndex k ≠ None) (keys r)
    ∧ Sorted indexOrder indexNames.
Proof.
  exists (keys (snd <$> merge_sort index_le (indexed r))). split; [|split].
  - unfold forInKeys, forInEntries, keys. rewrite fmap_app. f_equal.
    by apply keys_filter.
  - unfold keys. rewrite (merge_sort_Permutation index_le (indexed r)), indexed_entries.
    pose proof (keys_filter (λ k, arrayIndex k ≠ None) isIndexEntry r) as Hkeys.
    unfold keys in Hkeys. by rewrite Hkeys.
  - unfold keys. rewrite <- list_fmap_compose.
    apply (Sorted_fmap _
             (λ x y, index_le x y
                     ∧ arrayIndex x.2.1 = Some x.1 ∧ arrayIndex y.2.1 = Some y.1)
             indexOrder); [|apply Sorted_with_Forall].
    + intros x y (Hle & Hx & Hy). unfold indexOrder, compose. by rewrite Hx, Hy.
    + apply Sorted_merge_sort, _.
    + rewrite merge_sort_Permutation. apply indexed_Forall.
Qed.

(** C3, as amended. After a completed registration whose [publicProps] is
    [props], the stored [apiFields] holds exactly the declared names, each
    once, in the order [for ... in] enumerates them: the names that are
    array indices first, in ascending numeric order, then all other names
    in declaration order. With no array-index name among them this is the
    order of declaration. *)
Theorem apiFields_follow_enumeration_order `{!Collaborators}
    production Ctor meta props s r s' :
  RegisterDecoratorMeta.publicProps meta = Some props →
  NoDup (keys props) →
  registerDecorators production Ctor meta s = (Normal r, s') →
  let apiFields := DecoratorMeta.apiFields (getDecoratorsMeta Ctor s') in
  apiFields ≡ₚ keys props
  ∧ NoDup apiFields
  ∧ (∃ indexNames,
       apiFields = indexNames ++ filter (λ k, arrayIndex k = None) (keys props)
       ∧ indexNames ≡ₚ filter (λ k, arrayIndex k ≠ None) (keys props)
       ∧ Sorted indexOrder indexNames)
  ∧ (Forall (λ k, arrayIndex k = None) (keys props) → apiFields = keys props).
Proof.
  intros Hprops Hnd Hrun apiFields.
  apply registerDecorators_stored in Hrun as [_ Hmeta].
  assert (apiFields = forInKeys props) as ->.
  { unfold apiFields. rewrite Hmeta. unfold resolve. simpl. by rewrite Hprops. }
  split; [apply forInKeys_Permutation|].
  split; [by apply forInKeys_NoDup|].
  split; [apply forInKeys_shape|].
  intros Hplain. unfold forInKeys. by rewrite forInEntries_no_index.
Qed.

Lemma History_unregistered `{!Collaborators} registered s Ctor :
  History registered s → Ctor ∉ registered → signedDecoratorToMetaMap s !! Ctor = None.
Proof.
  induction 1 as [protos calls|production C meta registered s Hs IH
                  |registered s s' Hs IH Hsame]; intros Hnot.
  - done.
  - apply not_elem_of_cons in Hnot as [Hne Hnot].
    destruct (registerDecorators_outcome production C meta s)
      as [(s1 & -> & Hreg)|(e & s1 & -> & Hreg)]; simpl; rewrite Hreg.
    + rewrite lookup_insert_ne by done. by apply IH.
    + by apply IH.
  - rewrite Hsame. by apply IH.
Qed.

(** C4. For a class that was never passed to [registerDecorators],
    [getDecoratorsMeta] returns the shared default: four empty lists and no
    [fields] entry. *)
Theorem unregistered_class_gets_default `{!Collaborators} registered s Ctor :
  History registered s →
  Ctor ∉ registered →
  getDecoratorsMeta Ctor s = defaultMeta
  ∧ DecoratorMeta.apiMethods (getDecoratorsMeta Ctor s) = []
  ∧ DecoratorMeta.apiFields (getDecoratorsMeta Ctor s) = []
  ∧ DecoratorMeta.wiredMethods (getDecoratorsMeta Ctor s) = []
  ∧ DecoratorMeta.wiredFields (getDecoratorsMeta Ctor s) = []
  ∧ DecoratorMeta.fields (getDecoratorsMeta Ctor s) = NoEntry.
Proof.
  intros Hhist Hnot. unfold getDecoratorsMeta.
  by rewrite (History_unregistered registered s Ctor Hhist Hnot).
Qed.

(** C7. A class registered with [track = {z: 1}], [z] being in no other
    category: the stored metadata has [z] in none of its four lists, while
    the prototype carries the track descriptor under [z]. *)
Theorem tracked_field_in_no_list `{!Collaborators} production Ctor meta z s r s' :
  RegisterDecoratorMeta.track meta = Some [(z, VNumber 1)] →
  z ∉ keys (default [] (RegisterDecoratorMeta.publicProps meta)) →
  z ∉ default [] (RegisterDecoratorMeta.publicMethods meta) →
  z ∉ keys (default [] (RegisterDecoratorMeta.wire meta)) →
  registerDecorators production Ctor meta s = (Normal r, s') →
  ∃ stored,
    signedDecoratorToMetaMap s' !! Ctor = Some stored
    ∧ (z ∉ DecoratorMeta.apiFields stored)
    ∧ (z ∉ DecoratorMeta.apiMethods stored)
    ∧ (z ∉ DecoratorMeta.wiredFields stored)
    ∧ (z ∉ DecoratorMeta.wiredMethods stored)
    ∧ ownDescriptor Ctor z s' = Some (internalTrackDecorator z).
Proof.
  intros Htrack Hprops Hmethods Hwire Hrun.
  pose proof (registerDecorators_track_installed _ _ _ _ _ _ _ _ Htrack Hrun) as Hinstalled.
  apply registerDecorators_stored in Hrun as [Hstored _].
  exists (resolve meta). split; [done|]. unfold resolve. simpl.
  assert (∀ P `{!∀ e, Decision (P e)},
            z ∉ keys (filter P (default [] (forInEntries
                                              <$> RegisterDecoratorMeta.wire meta))))
    as Hfiltered.
  { intros P ? Hin. apply Hwire. unfold keys in *.
    apply list_elem_of_fmap in Hin as (e & -> & He).
    apply list_elem_of_filter in He as [_ He].
    apply list_elem_of_fmap. exists e. split; [done|].
    destruct (RegisterDecoratorMeta.wire meta); simpl in *; [|done].
    by rewrite elem_of_forInEntries in He. }
  split; [|split; [done|split; [apply Hfiltered|split; [apply Hfiltered|done]]]].
  destruct (RegisterDecoratorMeta.publicProps meta) as [props|]; simpl in *; [|done].
  by rewrite forInKeys_Permutation.
Qed.

(** C8. Registering a class again does not merge: after two completed
    registrations of the same class, the registry holds for it what the
    second registration resolved from its own metadata, and that is what
    [getDecoratorsMeta] returns; the entry of the first registration, which
    [getDecoratorsMeta] returned in between, is gone. *)
Theorem second_registration_overwrites `{!Collaborators}
    production Ctor meta1 meta2 s0 r1 s1 r2 s2 :
  registerDecorators production Ctor meta1 s0 = (Normal r1, s1) →
  registerDecorators production Ctor meta2 s1 = (Normal r2, s2) →
  getDecoratorsMeta Ctor s1 = resolve meta1
  ∧ getDecoratorsMeta Ctor s2 = resolve meta2
  ∧ signedDecoratorToMetaMap s2
    = <[Ctor := resolve meta2]> (signedDecoratorToMetaMap s0).
Proof.
  intros Hfirst Hsecond.
  pose proof (registerDecorators_stored _ _ _ _ _ _ Hfirst) as [_ Hmeta1].
  pose proof (registerDecorators_stored _ _ _ _ _ _ Hsecond) as [_ Hmeta2].
  apply registerDecorators_Normal_registry in Hfirst as [_ Hreg1].
  apply registerDecorators_Normal_registry in Hsecond as [_ Hreg2].
  split; [done|]. split; [done|].
  rewrite Hreg2, Hreg1. apply insert_insert_eq.
Qed.

(** C10. Registering a class with an empty metadata object always
    completes and always writes an entry: four empty lists and a [fields]
    entry holding [undefined]. That entry is what [getDecoratorsMeta] then
    returns, and it is not the shared default, which has no [fields] entry. *)
Theorem empty_registration_writes_entry `{!Collaborators} production Ctor s :
  let stored := DecoratorMeta.mk [] [] [] [] (Entry None) in
  let s' := mkState (prototypes s) (<[Ctor := stored]> (signedDecoratorToMetaMap s))
              (wiring s) in
  registerDecorators production Ctor RegisterDecoratorMeta.empty s = (Normal Ctor, s')
  ∧ signedDecoratorToMetaMap s' !! Ctor = Some stored
  ∧ getDecoratorsMeta Ctor s' = stored
  ∧ getDecoratorsMeta Ctor s' ≠ defaultMeta.
Proof.
  intros stored s'. split; [done|].
  assert (signedDecoratorToMetaMap s' !! Ctor = Some stored) as Hstored.
  { unfold s'. simpl. apply lookup_insert_eq. }
  split; [done|]. unfold getDecoratorsMeta. rewrite Hstored. done.
Qed.

(** ** The properties at sample inputs *)

Section Witnesses.
Local Existing Instance Spec.collaborators.
Import Sample.

Lemma missing_accessor_aborts_before_registry_witness :
  ∃ e s',
    registerDecorators false 1%positive (onlyProps [("x", field); ("v", getter)]) fresh
    = (Throw e, s')
    ∧ signedDecoratorToMetaMap s' = signedDecoratorToMetaMap fresh
    ∧ getDecoratorsMeta 1%positive s' = getDecoratorsMeta 1%positive fresh
    ∧ (signedDecoratorToMetaMap fresh !! 1%positive = None →
       signedDecoratorToMetaMap s' !! 1%positive = None
       ∧ getDecoratorsMeta 1%positive s' = defaultMeta).
Proof.
  apply (missing_accessor_aborts_before_registry 1%positive
           (onlyProps [("x", field); ("v", getter)])
           [("x", field); ("v", getter)] "v" getter fresh).
  - reflexivity.
  - compute_done.
  - repeat constructor.
  - left. reflexivity.
  - reflexivity.
Defined.

Lemma wire_entries_are_dispatched_witness :
  let meta := onlyWire [("y", wireField); ("foo", wireMethod)] in
  let s := withMethod "foo" true in
  let s' := (registerDecorators false 1%positive meta s).2 in
  (ownDescriptor 1%positive "y" s' = Some (internalWireFieldDecorator "y")
   ∧ ownDescriptor 1%positive "foo" s' = Some (method "foo" true))
  ∧ ∃ calls,
      wiring s' = wiring s ++ calls
      ∧ Forall2 (wiringCallFor 1%positive) (forInEntries [("y", wireField); ("foo", wireMethod)])
          calls
      ∧ callName <$> calls = keys (forInEntries [("y", wireField); ("foo", wireMethod)])
      ∧ (NoDup (keys [("y", wireField); ("foo", wireMethod)]) → NoDup (callName <$> calls))
      ∧ DecoratorMeta.wiredMethods (getDecoratorsMeta 1%positive s')
        = keys (filter isMethodBinding (forInEntries [("y", wireField); ("foo", wireMethod)]))
      ∧ DecoratorMeta.wiredFields (getDecoratorsMeta 1%positive s')
        = keys (filter (λ e, ¬ isMethodBinding e)
                  (forInEntries [("y", wireField); ("foo", wireMethod)])).
Proof.
  intros meta s s'. split.
  - split; vm_compute; reflexivity.
  - apply (proj2 (wire_entries_are_dispatched false 1%positive) meta s 1%positive s').
    vm_compute. reflexivity.
Defined.

Lemma apiFields_follow_enumeration_order_witness :
  let props := [("b", field); ("1", field); ("a", field); ("0", field)] in
  let s' := (registerDecorators false 1%positive (onlyProps props) fresh).2 in
  let apiFields := DecoratorMeta.apiFields (getDecoratorsMeta 1%positive s') in
  apiFields ≡ₚ keys props
  ∧ NoDup apiFields
  ∧ (∃ indexNames,
       apiFields = indexNames ++ filter (λ k, arrayIndex k = None) (keys props)
       ∧ indexNames ≡ₚ filter (λ k, arrayIndex k ≠ None) (keys props)
       ∧ Sorted indexOrder indexNames)
  ∧ (Forall (λ k, arrayIndex k = None) (keys props) → apiFields = keys props).
Proof.
  intros props s'.
  apply (apiFields_follow_enumeration_order false 1%positive (onlyProps props) props
           fresh 1%positive s').
  - reflexivity.
  - compute_done.
  - vm_compute. reflexivity.
Defined.

Lemma unregistered_class_gets_default_witness :
  let s := (registerDecorators false 2%positive (onlyProps [("x", field)]) fresh).2 in
  getDecoratorsMeta 1%positive s = defaultMeta
  ∧ DecoratorMeta.apiMethods (getDecoratorsMeta 1%positive s) = []
  ∧ DecoratorMeta.apiFields (getDecoratorsMeta 1%positive s) = []
  ∧ DecoratorMeta.wiredMethods (getDecoratorsMeta 1%positive s) = []
  ∧ DecoratorMeta.wiredFields (getDecoratorsMeta 1%positive s) = []
  ∧ DecoratorMeta.fields (getDecoratorsMeta 1%positive s) = NoEntry.
Proof.
  intros s.
  apply (unregistered_class_gets_default [2%positive] s 1%positive).
  - apply history_register, history_start.
  - compute_done.
Defined.

Lemma accessor_needs_descriptor_and_getter_witness :
  validateAccessorDecoratedWithApi false 1%positive "v" withSetterOnly
  = (Throw (Error ("Compiler Error: Missing getter for property v decorated with @api in "
                   +:+ "class extends LightningElement {}"
                   +:+ ". You cannot have a setter without the corresponding getter.")),
     withSetterOnly)
  ∧ ∃ e s',
      registerDecorators false 1%positive
        (onlyProps [("v", PropCompilerDef.mk Set_ "any")]) withSetterOnly
      = (Throw e, s')
      ∧ signedDecoratorToMetaMap s' = signedDecoratorToMetaMap withSetterOnly.
Proof.
  apply (proj2 (accessor_needs_descriptor_and_getter 1%positive
                  (onlyProps [("v", PropCompilerDef.mk Set_ "any")])
                  [("v", PropCompilerDef.mk Set_ "any")] "v"
                  (PropCompilerDef.mk Set_ "any") withSetterOnly
                  eq_refl ltac:(compute_done) ltac:(repeat constructor)
                  ltac:(discriminate))
           (AccessorDescriptor VUndefined (VFunction (Authored "set v")) false true)).
  - vm_compute. reflexivity.
  - reflexivity.
  - reflexivity.
Defined.

Lemma invalid_method_descriptor_aborts_witness :
  let s := withMethod "foo" false in
  let meta := RegisterDecoratorMeta.mk (Some ["foo"]) None None None None in
  validateMethodDecoratedWithApi false 1%positive "foo" s
    = (Throw (Error "Compiler Error: Invalid @api foo method declaration."), s)
  ∧ registerDecorators false 1%positive meta s
    = (Throw (Error "Compiler Error: Invalid @api foo method declaration."), s).
Proof.
  intros s meta.
  destruct (invalid_method_descriptor_aborts 1%positive meta "foo" s)
    as (Hvalidate & _ & _ & _ & Hregister).
  - right. right. eexists. split; [vm_compute; reflexivity|reflexivity].
  - split; [exact Hvalidate | exact Hregister].
Defined.

Lemma tracked_field_in_no_list_witness :
  let meta :=
    RegisterDecoratorMeta.mk (Some ["foo"]) (Some [("x", field)])
      (Some [("z", VNumber 1)]) (Some [("y", wireField)]) None in
  let s' := (registerDecorators false 1%positive meta (withMethod "foo" true)).2 in
  ∃ stored,
    signedDecoratorToMetaMap s' !! 1%positive = Some stored
    ∧ ("z" ∉ DecoratorMeta.apiFields stored)
    ∧ ("z" ∉ DecoratorMeta.apiMethods stored)
    ∧ ("z" ∉ DecoratorMeta.wiredFields stored)
    ∧ ("z" ∉ DecoratorMeta.wiredMethods stored)
    ∧ ownDescriptor 1%positive "z" s' = Some (internalTrackDecorator "z").
Proof.
  intros meta s'.
  apply (tracked_field_in_no_list false 1%positive meta "z" (withMethod "foo" true)
           1%positive s').
  - reflexivity.
  - compute_done.
  - compute_done.
  - compute_done.
  - vm_compute. reflexivity.
Defined.

Lemma second_registration_overwrites_witness :
  let meta1 := onlyProps [("x", field)] in
  let meta2 := onlyTrack [("z", VNumber 1)] in
  let s1 := (registerDecorators false 1%positive meta1 fresh).2 in
  let s2 := (registerDecorators false 1%positive meta2 s1).2 in
  getDecoratorsMeta 1%positive s1 = resolve meta1
  ∧ getDecoratorsMeta 1%positive s2 = resolve meta2
  ∧ signedDecoratorToMetaMap s2
    = <[1%positive := resolve meta2]> (signedDecoratorToMetaMap fresh).
Proof.
  intros meta1 meta2 s1 s2.
  apply (second_registration_overwrites false 1%positive meta1 meta2 fresh
           1%positive s1 1%positive s2).
  - vm_compute. reflexivity.
  - vm_compute. reflexivity.
Defined.

Lemma wire_flag_is_compared_with_one_witness :
  let s := withMethod "foo" true in
  ∃ s',
    wireBody true 1%positive ("foo", wireTrue) ([], []) s = (Normal ([], ["foo"]), s')
    ∧ ownDescriptor 1%positive "foo" s' = Some (internalWireFieldDecorator "foo").
Proof.
  intros s.
  destruct (wire_flag_is_compared_with_one true 1%positive "foo" wireTrue [] [] s)
    as [_ Hfield].
  destruct Hfield as (_ & _ & Hcompletes).
  - discriminate.
  - apply Hcompletes.
    + reflexivity.
    + intros d Hd. vm_compute in Hd. injection Hd as <-. reflexivity.
    + reflexivity.
Defined.

(** C9, as stated, fails outside production mode. Class 1 has an authored
    method [foo], and its wire entry for [foo] carries the flag [true]: the
    entry is taken down the field path, where the validator refuses the
    member. The registration aborts; the method is still the own descriptor
    under [foo], no wire-field descriptor has been installed over it,
    [storeWiredFieldMeta] has not been called, and nothing is stored. *)
Lemma wire_field_over_member_is_refused :
  let s := withMethod "foo" true in
  WireCompilerDef.method wireTrue ≠ VNumber 1
  ∧ ownDescriptor 1%positive "foo" s = Some (method "foo" true)
  ∧ wireBody false 1%positive ("foo", wireTrue) ([], []) s
    = (Throw (Error "Compiler Error: Invalid @wire(...) foo field declaration."), s)
  ∧ ∃ s',
      registerDecorators false 1%positive (onlyWire [("foo", wireTrue)]) s
      = (Throw (Error "Compiler Error: Invalid @wire(...) foo field declaration."), s')
      ∧ ownDescriptor 1%positive "foo" s' = Some (method "foo" true)
      ∧ ownDescriptor 1%positive "foo" s' ≠ Some (internalWireFieldDecorator "foo")
      ∧ wiring s' = []
      ∧ getDecoratorsMeta 1%positive s' = defaultMeta.
Proof.
  intros s. split; [discriminate|]. split; [vm_compute; reflexivity|].
  split; [vm_compute; reflexivity|].
  eexists. split; [vm_compute; reflexivity|].
  split; [vm_compute; reflexivity|]. split; [vm_compute; discriminate|].
  split; vm_compute; reflexivity.
Qed.

(** C3, as stated, fails: a public prop whose name is an array index is
    enumerated before the names declared ahead of it. Here [b] is declared
    before [1], and the stored [apiFields] is [1, b]. *)
Lemma apiFields_not_in_declaration_order :
  let props := [("b", field); ("1", field)] in
  ∃ s',
    registerDecorators false 1%positive (onlyProps props) fresh = (Normal 1%positive, s')
    ∧ keys props = ["b"; "1"]
    ∧ DecoratorMeta.apiFields (getDecoratorsMeta 1%positive s') = ["1"; "b"]
    ∧ DecoratorMeta.apiFields (getDecoratorsMeta 1%positive s') ≠ keys props.
Proof.
  intros props. eexists. split; [vm_compute; reflexivity|].
  split; [reflexivity|]. split; [vm_compute; reflexivity|].
  vm_compute. discriminate.
Qed.

End Witnesses.

(** * Further properties of register.ts *)

(** ** What a registration leaves alone *)

Global Instance keepsOwn_preorder Ctor name : PreOrder (keepsOwn Ctor name).
Proof. split; unfold keepsOwn; [intros s; auto | intros s1 s2 s3; auto]. Qed.

Global Instance growsWiring_preorder : PreOrder growsWiring.
Proof.
  split; unfold growsWiring.
  - by intros s.
  - intros s1 s2 s3 H12 H23. by etrans.
Qed.

Lemma frames_weaken (R1 R2 : relation State) {A} (m : M A) :
  (∀ s s', R1 s s' → R2 s s') → frames R1 m → frames R2 m.
Proof. intros Hsub Hm s. apply Hsub, Hm. Qed.

Section WholeRegistration.
Context `{!Collaborators} (R : relation State) `{!PreOrder R}.
Context (production : bool) (Ctor : ComponentConstructor).

Lemma frames_setDecoratorsMeta_sameOn {B} (f : State → B) meta :
  (∀ p r r' w, f (mkState p r w) = f (mkState p r' w)) →
  frames (sameOn f) (setDecoratorsMeta Ctor meta).
Proof. intros Hf [p r w]. unfold sameOn. simpl. apply Hf. Qed.

(** The wire loop body calls [defineProperty] and [storeWiredFieldMeta]
    for a field binding only, [storeWiredMethodMeta] for a method binding
    only. *)
Lemma frames_wireBody_by_kind entry acc :
  (¬ isMethodBinding entry →
   ∀ Desc, frames R (definePropertyOnPrototype Ctor entry.1 Desc)) →
  (isMethodBinding entry →
   ∀ adapter method cb, frames R (storeWiredMethodMeta Ctor entry.1 adapter method cb)) →
  (¬ isMethodBinding entry →
   ∀ adapter cb, frames R (storeWiredFieldMeta Ctor entry.1 adapter cb)) →
  frames R (wireBody production Ctor entry acc).
Proof.
  destruct entry as [name def], acc as [wiredMethods wiredFields].
  intros Hdef Hmethod Hfield.
  pose proof (frames_validateMethodDecoratedWithWire production R Ctor name).
  pose proof (frames_validateFieldDecoratedWithWire production R Ctor name).
  pose proof (frames_protoGet R Ctor name).
  unfold wireBody, strictEquals. case_bool_decide as Hm.
  - specialize (Hmethod Hm). frames_auto. apply Hmethod.
  - specialize (Hdef Hm). specialize (Hfield Hm).
    frames_auto; first [apply Hfield | apply Hdef].
Qed.

(** A relation kept by the primitives a registration can reach is kept by
    the registration, however it completes. *)
Lemma frames_registerDecorators meta :
  (∀ P Desc, P ∈ installedNames meta →
             frames R (definePropertyOnPrototype Ctor P Desc)) →
  (∀ e adapter method cb,
     e ∈ default [] (RegisterDecoratorMeta.wire meta) → isMethodBinding e →
     frames R (storeWiredMethodMeta Ctor e.1 adapter method cb)) →
  (∀ e adapter cb,
     e ∈ default [] (RegisterDecoratorMeta.wire meta) → ¬ isMethodBinding e →
     frames R (storeWiredFieldMeta Ctor e.1 adapter cb)) →
  (∀ stored, frames R (setDecoratorsMeta Ctor stored)) →
  frames R (registerDecorators production Ctor meta).
Proof.
  intros Hdef Hmethod Hfield Hset. unfold registerDecorators, installedNames in *.
  apply frames_bind; [done| |intros apiFields].
  { apply frames_whenDefined; [done|]. intros props Hprops.
    apply frames_forEachM; [done|]. intros e He acc.
    apply frames_publicPropsBody; [done|]. intros Desc. apply Hdef.
    rewrite Hprops. simpl. rewrite !elem_of_app. left.
    rewrite elem_of_forInEntries in He. unfold keys. apply list_elem_of_fmap. by exists e. }
  apply frames_bind; [done| |intros apiMethods].
  { by apply frames_any_publicMethods. }
  apply frames_bind; [done| |intros wired].
  { apply frames_whenDefined; [done|]. intros w Hw.
    apply frames_forEachM; [done|]. intros e He acc.
    rewrite elem_of_forInEntries in He. rewrite Hw in *. simpl in *.
    apply frames_wireBody_by_kind.
    - intros Hkind Desc. apply Hdef. rewrite !elem_of_app. right. left.
      unfold wiredFieldEntries, keys. rewrite Hw. simpl.
      apply list_elem_of_fmap. exists e. split; [done|]. by apply list_elem_of_filter.
    - intros Hkind adapter method cb. by apply Hmethod.
    - intros Hkind adapter cb. by apply Hfield. }
  apply frames_bind; [done| |intros []].
  { apply frames_whenDefined; [done|]. intros t Ht.
    apply frames_forEachM; [done|]. intros e He acc.
    apply frames_trackBody; [done|]. intros Desc. apply Hdef.
    rewrite Ht. simpl. rewrite !elem_of_app. right. right.
    rewrite elem_of_forInEntries in He. unfold keys. apply list_elem_of_fmap. by exists e. }
  apply frames_bind; [done| |intros []].
  { by apply frames_any_fields. }
  apply frames_bind; [done|apply Hset|intros []; by apply frames_ret].
Qed.
End WholeRegistration.

Lemma frames_definePropertyOnPrototype_keepsOwn Ctor P Desc C name :
  frames (keepsOwn C name) (definePropertyOnPrototype Ctor P Desc).
Proof.
  intros s. unfold definePropertyOnPrototype, keepsOwn, ownDescriptor, prototype.
  destruct (defineProperty _ _ _) as [O'|] eqn:Hdef; simpl; [|done].
  apply defineProperty_Some in Hdef as [Hown _].
  destruct (decide (C = Ctor)) as [->|Hc].
  - rewrite lookup_total_insert_eq, Hown.
    destruct (decide (P = name)) as [->|Hne].
    + rewrite lookup_insert_eq. by eexists.
    + by rewrite lookup_insert_ne.
  - by rewrite lookup_total_insert_ne.
Qed.


Lemma frames_definePropertyOnPrototype_growsWiring Ctor P Desc :
  frames growsWiring (definePropertyOnPrototype Ctor P Desc).
Proof.
  intros s. unfold definePropertyOnPrototype, growsWiring.
  by destruct (defineProperty _ _ _).
Qed.




(** X4. The calls a registration makes to the wiring subsystem are added
    after the ones already received, which stay as they are; without wire
    entries it makes none. Both hold whether the registration completes or
    aborts. *)
Theorem registration_only_adds_wiring_calls `{!Collaborators}
    production Ctor meta s :
  wiring s `prefix_of` wiring (registerDecorators production Ctor meta s).2
  ∧ (default [] (RegisterDecoratorMeta.wire meta) = [] →
     wiring (registerDecorators production Ctor meta s).2 = wiring s).
Proof.
  split.
  - apply (frames_registerDecorators growsWiring).
    + intros. apply frames_definePropertyOnPrototype_growsWiring.
    + intros e adapter method cb _ _ [p r w]. unfold growsWiring. simpl.
      by apply prefix_app_r.
    + intros e adapter cb _ _ [p r w]. unfold growsWiring. simpl.
      by apply prefix_app_r.
    + intros stored [p r w]. by unfold growsWiring.
  - intros Hnone.
    apply (frames_registerDecorators (sameOn wiring)).
    + intros. apply frames_definePropertyOnPrototype_wiring.
    + intros e adapter method cb He. rewrite Hnone in He. by apply elem_of_nil in He.
    + intros e adapter cb He. rewrite Hnone in He. by apply elem_of_nil in He.
    + intros. by apply frames_setDecoratorsMeta_sameOn.
Qed.

(** ** The field validators *)

Section FieldValidators.
Context `{!Collaborators}.

Lemma validateFieldDecoratedWithApi_dev Ctor name s :
  validateFieldDecoratedWithApi false Ctor name s
  = match ownDescriptor Ctor name s with
    | Some _ =>
        (Throw (Error ("Compiler Error: Invalid @api " +:+ name +:+ " field declaration.")), s)
    | None => (Normal (), s)
    end.
Proof.
  unfold validateFieldDecoratedWithApi, ownDescriptor. simpl.
  unfold mbind, M_bind, getOwnPropertyDescriptor. by destruct (own _ !! _).
Qed.

Lemma validateFieldDecoratedWithTrack_dev Ctor name s :
  validateFieldDecoratedWithTrack false Ctor name s
  = match ownDescriptor Ctor name s with
    | Some _ =>
        (Throw (Error ("Compiler Error: Invalid @track " +:+ name +:+ " declaration.")), s)
    | None => (Normal (), s)
    end.
Proof.
  unfold validateFieldDecoratedWithTrack, ownDescriptor. simpl.
  unfold mbind, M_bind, getOwnPropertyDescriptor. by destruct (own _ !! _).
Qed.

Lemma validateObservedField_dev Ctor name s :
  validateObservedField false Ctor name s
  = match ownDescriptor Ctor name s with
    | Some _ =>
        (Throw (Error ("Compiler Error: Invalid field " +:+ name +:+ " declaration.")), s)
    | None => (Normal (), s)
    end.
Proof.
  unfold validateObservedField, ownDescriptor. simpl.
  unfold mbind, M_bind, getOwnPropertyDescriptor. by destruct (own _ !! _).
Qed.
End FieldValidators.

(** ** Running the loops one after the other *)

Section LoopRuns.
Context `{!Collaborators} (production : bool) (Ctor : ComponentConstructor).

Lemma registerDecorators_loops meta :
  registerDecorators production Ctor meta
  = (apiFields ← publicPropsLoop production Ctor meta;
     apiMethods ← publicMethodsLoop production Ctor meta;
     wired ← wireLoop production Ctor meta;
     trackLoop production Ctor meta;;
     fieldsLoop production Ctor meta;;
     setDecoratorsMeta Ctor
       (DecoratorMeta.mk apiMethods apiFields wired.1 wired.2
          (Entry (RegisterDecoratorMeta.fields meta)));;
     mret Ctor).
Proof. reflexivity. Qed.

(** A completed registration is five completed loops and the write to the
    registry. *)
Lemma registerDecorators_Normal_inv meta s r s' :
  registerDecorators production Ctor meta s = (Normal r, s') →
  ∃ apiFields s1 apiMethods s2 wired s3 s4 s5,
    publicPropsLoop production Ctor meta s = (Normal apiFields, s1)
    ∧ publicMethodsLoop production Ctor meta s1 = (Normal apiMethods, s2)
    ∧ wireLoop production Ctor meta s2 = (Normal wired, s3)
    ∧ trackLoop production Ctor meta s3 = (Normal (), s4)
    ∧ fieldsLoop production Ctor meta s4 = (Normal (), s5)
    ∧ prototypes s' = prototypes s5
    ∧ wiring s' = wiring s5
    ∧ r = Ctor.
Proof.
  rewrite registerDecorators_loops. intros Hrun.
  apply bind_Normal_inv in Hrun as (apiFields & s1 & H1 & Hrun).
  apply bind_Normal_inv in Hrun as (apiMethods & s2 & H2 & Hrun).
  apply bind_Normal_inv in Hrun as (wired & s3 & H3 & Hrun).
  apply bind_Normal_inv in Hrun as ([] & s4 & H4 & Hrun).
  apply bind_Normal_inv in Hrun as ([] & s5 & H5 & Hrun).
  injection Hrun as <- <-.
  by exists apiFields, s1, apiMethods, s2, wired, s3, s4, s5.
Qed.

(** The loops keep a relation that their primitives keep. *)
Lemma frames_wireLoop (R : relation State) `{!PreOrder R} meta :
  (∀ e Desc, e ∈ wiredFieldEntries meta →
             frames R (definePropertyOnPrototype Ctor e.1 Desc)) →
  (∀ name adapter method cb, frames R (storeWiredMethodMeta Ctor name adapter method cb)) →
  (∀ name adapter cb, frames R (storeWiredFieldMeta Ctor name adapter cb)) →
  frames R (wireLoop production Ctor meta).
Proof.
  intros Hdef Hmethod Hfield. unfold wireLoop, wiredFieldEntries in *.
  apply frames_whenDefined; [done|]. intros w Hw.
  apply frames_forEachM; [done|]. intros e He acc.
  rewrite elem_of_forInEntries in He. rewrite Hw in *. simpl in *.
  apply frames_wireBody_by_kind; [done| | |].
  - intros Hkind Desc. apply Hdef. by apply list_elem_of_filter.
  - intros _ adapter method cb. apply Hmethod.
  - intros _ adapter cb. apply Hfield.
Qed.

Lemma keepsOwn_publicPropsLoop meta C name :
  frames (keepsOwn C name) (publicPropsLoop production Ctor meta).
Proof.
  apply frames_publicProps; [apply _|].
  intros. apply frames_definePropertyOnPrototype_keepsOwn.
Qed.

Lemma keepsOwn_publicMethodsLoop meta C name :
  frames (keepsOwn C name) (publicMethodsLoop production Ctor meta).
Proof. apply frames_any_publicMethods, _. Qed.

Lemma keepsOwn_wireLoop meta C name :
  frames (keepsOwn C name) (wireLoop production Ctor meta).
Proof.
  apply frames_wireLoop; [apply _| | |].
  - intros. apply frames_definePropertyOnPrototype_keepsOwn.
  - intros e adapter method cb [p r w]. by unfold keepsOwn.
  - intros e adapter cb [p r w]. by unfold keepsOwn.
Qed.

Lemma keepsOwn_trackLoop meta C name :
  frames (keepsOwn C name) (trackLoop production Ctor meta).
Proof.
  apply frames_track; [apply _|].
  intros. apply frames_definePropertyOnPrototype_keepsOwn.
Qed.

Lemma keepsOwn_fieldsLoop meta C name :
  frames (keepsOwn C name) (fieldsLoop production Ctor meta).
Proof. apply frames_any_fields, _. Qed.

Lemma sameOwn_wireLoop meta C name :
  name ∉ keys (wiredFieldEntries meta) →
  frames (sameOn (ownDescriptor C name)) (wireLoop production Ctor meta).
Proof.
  intros Hname. apply frames_wireLoop; [apply _| | |].
  - intros e Desc He. apply frames_definePropertyOnPrototype_other.
    intros ->. apply Hname. unfold keys. apply list_elem_of_fmap. by exists e.
  - intros. by apply frames_storeWiredMethodMeta.
  - intros. by apply frames_storeWiredFieldMeta.
Qed.

Lemma sameOwn_trackLoop meta C name :
  name ∉ keys (default [] (RegisterDecoratorMeta.track meta)) →
  frames (sameOn (ownDescriptor C name)) (trackLoop production Ctor meta).
Proof.
  intros Hname. unfold trackLoop.
  apply frames_whenDefined; [apply _|]. intros t Ht.
  apply frames_forEachM; [apply _|]. intros e He acc.
  apply frames_trackBody; [apply _|]. intros Desc.
  apply frames_definePropertyOnPrototype_other. intros ->. apply Hname.
  rewrite Ht. simpl. rewrite elem_of_forInEntries in He.
  unfold keys. apply list_elem_of_fmap. by exists e.
Qed.

Lemma sameOwn_fieldsLoop meta C name :
  frames (sameOn (ownDescriptor C name)) (fieldsLoop production Ctor meta).
Proof. apply frames_any_fields, _. Qed.

Lemma sameOwn_publicMethodsLoop meta C name :
  frames (sameOn (ownDescriptor C name)) (publicMethodsLoop production Ctor meta).
Proof. apply frames_any_publicMethods, _. Qed.
End LoopRuns.

(** ** What the completed loops have installed *)

Lemma forEachM_Normal_keeps {A L} (body : A → L → M L) (I : State → Prop) xs :
  (∀ y acc s a s', y ∈ xs → body y acc s = (Normal a, s') → I s → I s') →
  ∀ acc s a s', forEachM body xs acc s = (Normal a, s') → I s → I s'.
Proof.
  induction xs as [|x xs IH]; intros Hkeep acc s a s' Hrun HI.
  - by injection Hrun as _ <-.
  - rewrite forEachM_cons in Hrun.
    apply bind_Normal_inv in Hrun as (acc' & s1 & Hx & Hrest).
    eapply IH; [|exact Hrest|].
    + intros y acc0 s0 a0 s0' Hy. apply Hkeep. by right.
    + eapply Hkeep; [by left|exact Hx|exact HI].
Qed.

(** What every completed body establishes for its entry, and every later
    body keeps, holds for all entries when the loop completes. *)
Lemma forEachM_Normal_each {A L} (body : A → L → M L) (P : A → State → Prop) xs :
  (∀ x acc s a s', x ∈ xs → body x acc s = (Normal a, s') → P x s') →
  (∀ x y acc s a s', x ∈ xs → y ∈ xs → body y acc s = (Normal a, s') → P x s → P x s') →
  ∀ acc s a s', forEachM body xs acc s = (Normal a, s') → ∀ x, x ∈ xs → P x s'.
Proof.
  intros Hest Hkeep.
  assert (∀ ys, ys ⊆ xs →
            ∀ acc s a s', forEachM body ys acc s = (Normal a, s') →
                          ∀ x, x ∈ ys → P x s') as Hall.
  { induction ys as [|y ys IH]; intros Hsub acc s a s' Hrun x Hx.
    - by apply elem_of_nil in Hx.
    - rewrite forEachM_cons in Hrun.
      apply bind_Normal_inv in Hrun as (acc' & s1 & Hy & Hrest).
      assert (ys ⊆ xs) as Hsub' by (intros z Hz; apply Hsub; by right).
      apply elem_of_cons in Hx as [->|Hx]; [|by eapply IH].
      assert (y ∈ xs) as Hyin by (apply Hsub; by left).
      eapply (forEachM_Normal_keeps body (P y)); [|exact Hrest|by eapply Hest].
      intros z acc0 s0 a0 s0' Hz. apply Hkeep; [done|by apply Hsub']. }
  intros acc s a s' Hrun x Hx. by eapply Hall.
Qed.

Section Installed.
Context `{!Collaborators} (production : bool) (Ctor : ComponentConstructor).

Lemma validator_keeps_state {A} (m : M A) s a s' :
  (∀ R : relation State, PreOrder R → frames R m) → m s = (Normal a, s') → s' = s.
Proof.
  intros Hm Hrun. pose proof (Hm (sameOn (λ s, s)) _ s) as Hs.
  rewrite Hrun in Hs. exact Hs.
Qed.

Lemma trackBody_Normal entry acc s a s' :
  trackBody production Ctor entry acc s = (Normal a, s') →
  ownDescriptor Ctor entry.1 s' = Some (internalTrackDecorator entry.1).
Proof.
  destruct entry as [name v]. unfold trackBody. intros Hrun.
  apply bind_Normal_inv in Hrun as ([] & s1 & _ & Hdefine).
  by apply definePropertyOnPrototype_Normal in Hdefine.
Qed.

Lemma wireBody_Normal_field entry acc s a s' :
  ¬ isMethodBinding entry →
  wireBody production Ctor entry acc s = (Normal a, s') →
  ownDescriptor Ctor entry.1 s' = Some (internalWireFieldDecorator entry.1).
Proof.
  destruct entry as [name def], acc as [wm wf]. intros Hkind.
  rewrite wireBody_field by done.
  destruct (_ && _); [done|].
  destruct (defineProperty _ _ _) as [O'|] eqn:Hdef; [|done].
  intros Hrun. injection Hrun as _ <-.
  rewrite afterFieldBinding_own. by eapply defineProperty_lookup.
Qed.

Lemma wireBody_Normal_method entry acc s a s' :
  isMethodBinding entry →
  wireBody production Ctor entry acc s = (Normal a, s') →
  prototypes s' = prototypes s.
Proof.
  destruct entry as [name def], acc as [wm wf]. intros Hkind.
  rewrite wireBody_method by done.
  destruct (_ && _); [done|]. destruct (ordinaryGet _ _ _ _); [done|].
  intros Hrun. by injection Hrun as _ <-.
Qed.

Lemma publicPropsBody_Normal name def acc s a s' :
  publicPropsBody production Ctor (name, def) acc s = (Normal a, s') →
  (PropCompilerDef.config def = Field →
   ownDescriptor Ctor name s' = Some (createPublicPropertyDescriptor name))
  ∧ (PropCompilerDef.config def ≠ Field →
     ∃ wrapped,
       createPublicAccessorDescriptor name (ownDescriptor Ctor name s) = inr wrapped
       ∧ ownDescriptor Ctor name s' = Some wrapped).
Proof.
  unfold publicPropsBody. intros Hrun.
  apply bind_Normal_inv in Hrun as (d & s1 & Hdesc & Hrun).
  apply bind_Normal_inv in Hrun as ([] & s2 & Hdefine & Hret).
  injection Hret as _ <-.
  apply definePropertyOnPrototype_Normal in Hdefine.
  case_bool_decide as Hkind.
  - apply bind_Normal_inv in Hdesc as ([] & s0 & Hvalid & Hdesc).
    assert (s0 = s) as ->.
    { destruct production; simpl in Hvalid; [by injection Hvalid as <-|].
      eapply validator_keeps_state; [|exact Hvalid].
      intros R HR. by apply frames_validateAccessorDecoratedWithApi. }
    apply bind_Normal_inv in Hdesc as (d0 & s0 & Hget & Hdesc).
    injection Hget as <- <-. fold (ownDescriptor Ctor name s) in Hdesc.
    destruct (createPublicAccessorDescriptor name _) as [e|wrapped] eqn:Hwrap; [done|].
    injection Hdesc as <- <-. split.
    + intros Hfield. rewrite Hfield in Hkind. simpl in Hkind. lia.
    + intros _. by exists wrapped.
  - apply bind_Normal_inv in Hdesc as ([] & s0 & Hvalid & Hdesc).
    injection Hdesc as <- <-. split; [done|].
    intros Hacc. destruct (PropCompilerDef.config def); simpl in Hkind; try done; lia.
Qed.

(** Every tracked name carries the track descriptor when the track loop
    has completed. *)
Lemma trackLoop_Normal meta s a s' name :
  trackLoop production Ctor meta s = (Normal a, s') →
  name ∈ keys (default [] (RegisterDecoratorMeta.track meta)) →
  ownDescriptor Ctor name s' = Some (internalTrackDecorator name).
Proof.
  unfold trackLoop. destruct (RegisterDecoratorMeta.track meta) as [t|]; simpl;
    [|intros _ Hin; by apply elem_of_nil in Hin].
  intros Hrun Hin. unfold keys in Hin.
  apply list_elem_of_fmap in Hin as (e & -> & He).
  apply (forEachM_Normal_each (trackBody production Ctor)
           (λ x s, ownDescriptor Ctor x.1 s = Some (internalTrackDecorator x.1))
           (forInEntries t)) with () s a; [| |done|by rewrite elem_of_forInEntries].
  - intros x acc s0 a0 s0' _. apply trackBody_Normal.
  - intros x y acc s0 a0 s0' _ _ Hy Hx.
    destruct (decide (x.1 = y.1)) as [Heq|Hne].
    + rewrite Heq. by eapply trackBody_Normal.
    + pose proof (frames_trackBody production (sameOn (ownDescriptor Ctor x.1)) Ctor y acc)
        as Hframe.
      rewrite <- Hx. specialize (Hframe ltac:(intros; by apply
        frames_definePropertyOnPrototype_other) s0). by rewrite Hy in Hframe.
Qed.

(** Every wired field carries the wire-field descriptor when the wire loop
    has completed. *)
Lemma wireLoop_Normal meta s a s' name :
  wireLoop production Ctor meta s = (Normal a, s') →
  name ∈ keys (wiredFieldEntries meta) →
  ownDescriptor Ctor name s' = Some (internalWireFieldDecorator name).
Proof.
  unfold wireLoop, wiredFieldEntries.
  destruct (RegisterDecoratorMeta.wire meta) as [w|]; simpl;
    [|intros _ Hin; by apply elem_of_nil in Hin].
  intros Hrun Hin. unfold keys in Hin.
  apply list_elem_of_fmap in Hin as (e & -> & He).
  apply list_elem_of_filter in He as [Hkind He].
  cut (¬ isMethodBinding e →
       ownDescriptor Ctor e.1 s' = Some (internalWireFieldDecorator e.1)); [auto|].
  apply (forEachM_Normal_each (wireBody production Ctor)
           (λ x s, ¬ isMethodBinding x →
                   ownDescriptor Ctor x.1 s = Some (internalWireFieldDecorator x.1))
           (forInEntries w)) with ([], []) s a;
    [| |done|by rewrite elem_of_forInEntries].
  - intros x acc s0 a0 s0' _ Hx Hk. by eapply wireBody_Normal_field.
  - intros x y acc s0 a0 s0' _ _ Hy Hx Hk. specialize (Hx Hk).
    destruct (decide (isMethodBinding y)) as [Hym|Hyf].
    + apply wireBody_Normal_method in Hy; [|done].
      unfold ownDescriptor, prototype in *. by rewrite Hy.
    + destruct (decide (x.1 = y.1)) as [Heq|Hne].
      * rewrite Heq. by eapply wireBody_Normal_field.
      * pose proof (frames_own_wireBody production Ctor Ctor x.1 y acc Hne s0) as Hframe.
        rewrite Hy in Hframe. unfold sameOn in Hframe. simpl in Hframe. congruence.
Qed.

(** Every public prop carries the descriptor made for it when the first
    loop has completed: the field descriptor for a Field, the wrapper of the
    descriptor found at the start for an accessor. *)
Lemma publicPropsLoop_Normal meta props s a s' name def :
  RegisterDecoratorMeta.publicProps meta = Some props →
  NoDup (keys props) →
  publicPropsLoop production Ctor meta s = (Normal a, s') →
  (name, def) ∈ props →
  (PropCompilerDef.config def = Field →
   ownDescriptor Ctor name s' = Some (createPublicPropertyDescriptor name))
  ∧ (PropCompilerDef.config def ≠ Field →
     ∃ wrapped,
       createPublicAccessorDescriptor name (ownDescriptor Ctor name s) = inr wrapped
       ∧ ownDescriptor Ctor name s' = Some wrapped).
Proof.
  intros Hprops Hnd. unfold publicPropsLoop. rewrite Hprops. simpl.
  rewrite <- (elem_of_forInEntries props).
  apply forInKeys_NoDup in Hnd. unfold forInKeys in Hnd.
  generalize dependent (forInEntries props). intros xs Hnd. clear Hprops.
  generalize (@nil string). revert s.
  induction xs as [|[k d] xs IH]; intros s acc Hrun Hin; [by apply elem_of_nil in Hin|].
  rewrite forEachM_cons in Hrun.
  apply bind_Normal_inv in Hrun as (acc' & s1 & Hhead & Hrest).
  unfold keys in Hnd. rewrite fmap_cons in Hnd. apply NoDup_cons in Hnd as [Hk Hnd].
  assert (∀ n, n ∉ keys xs → ownDescriptor Ctor n s' = ownDescriptor Ctor n s1) as Hothers.
  { intros n Hn.
    pose proof (frames_forEachM (sameOn (ownDescriptor Ctor n))
                  (publicPropsBody production Ctor) xs) as Hframe.
    specialize (Hframe ltac:(intros e He acc0; apply frames_own_publicPropsBody;
                             intros ->; apply Hn; unfold keys;
                             apply list_elem_of_fmap; by exists e) acc' s1).
    by rewrite Hrest in Hframe. }
  apply elem_of_cons in Hin as [Heq|Hin].
  - injection Heq as -> ->. rewrite (Hothers k Hk).
    by eapply publicPropsBody_Normal.
  - assert (name ≠ k) as Hne.
    { intros ->. apply Hk. apply list_elem_of_fmap. by exists (k, def). }
    pose proof (frames_own_publicPropsBody production Ctor Ctor name (k, d) acc Hne s)
      as Hsame.
    rewrite Hhead in Hsame. unfold sameOn in Hsame. simpl in Hsame.
    rewrite <- Hsame. by eapply IH.
Qed.
End Installed.

Lemma ownDescriptor_prototypes C name s s' :
  prototypes s' = prototypes s → ownDescriptor C name s' = ownDescriptor C name s.
Proof. unfold ownDescriptor, prototype. by intros ->. Qed.

Local Ltac carry_own Hloop Hframe :=
  let Hf := fresh "Hf" in
  match type of Hloop with
  | ?m ?s = _ => pose proof (Hframe s) as Hf; rewrite Hloop in Hf;
                 unfold sameOn in Hf; simpl in Hf
  end.

(** X6. After a completed registration every tracked name carries the
    track descriptor on the prototype, whatever was declared or installed
    under that name before: the track loop is the last to define
    properties. *)
Theorem tracked_names_carry_track_descriptor `{!Collaborators}
    production Ctor meta name s r s' :
  registerDecorators production Ctor meta s = (Normal r, s') →
  name ∈ keys (default [] (RegisterDecoratorMeta.track meta)) →
  ownDescriptor Ctor name s' = Some (internalTrackDecorator name).
Proof.
  intros Hrun Hname.
  apply registerDecorators_Normal_inv in Hrun
    as (apiFields & s1 & apiMethods & s2 & wired & s3 & s4 & s5
        & H1 & H2 & H3 & H4 & H5 & Hproto & _ & _).
  rewrite (ownDescriptor_prototypes _ _ _ _ Hproto).
  carry_own H5 (sameOwn_fieldsLoop production Ctor meta Ctor name).
  rewrite Hf. by eapply trackLoop_Normal.
Qed.

(** X7. After a completed registration every wired field that is not
    also tracked carries the wire-field descriptor on the prototype. *)
Theorem wired_fields_carry_wire_descriptor `{!Collaborators}
    production Ctor meta name s r s' :
  registerDecorators production Ctor meta s = (Normal r, s') →
  name ∈ keys (wiredFieldEntries meta) →
  name ∉ keys (default [] (RegisterDecoratorMeta.track meta)) →
  ownDescriptor Ctor name s' = Some (internalWireFieldDecorator name).
Proof.
  intros Hrun Hname Htrack.
  apply registerDecorators_Normal_inv in Hrun
    as (apiFields & s1 & apiMethods & s2 & wired & s3 & s4 & s5
        & H1 & H2 & H3 & H4 & H5 & Hproto & _ & _).
  rewrite (ownDescriptor_prototypes _ _ _ _ Hproto).
  carry_own H5 (sameOwn_fieldsLoop production Ctor meta Ctor name).
  carry_own H4 (sameOwn_trackLoop production Ctor meta Ctor name Htrack).
  rewrite Hf, Hf0. by eapply wireLoop_Normal.
Qed.

(** X8. After a completed registration a public prop that is neither a
    wired field nor tracked carries the descriptor the first loop made for
    it: the public field descriptor for a Field, and for an accessor kind
    the wrapper that [createPublicAccessorDescriptor] returned for the
    descriptor the prototype had under the name when registration began. *)
Theorem public_props_carry_their_descriptor `{!Collaborators}
    production Ctor meta props name def s r s' :
  registerDecorators production Ctor meta s = (Normal r, s') →
  RegisterDecoratorMeta.publicProps meta = Some props →
  NoDup (keys props) →
  (name, def) ∈ props →
  name ∉ keys (wiredFieldEntries meta) →
  name ∉ keys (default [] (RegisterDecoratorMeta.track meta)) →
  (PropCompilerDef.config def = Field →
   ownDescriptor Ctor name s' = Some (createPublicPropertyDescriptor name))
  ∧ (PropCompilerDef.config def ≠ Field →
     ∃ wrapped,
       createPublicAccessorDescriptor name (ownDescriptor Ctor name s) = inr wrapped
       ∧ ownDescriptor Ctor name s' = Some wrapped).
Proof.
  intros Hrun Hprops Hnd Hin Hwire Htrack.
  apply registerDecorators_Normal_inv in Hrun
    as (apiFields & s1 & apiMethods & s2 & wired & s3 & s4 & s5
        & H1 & H2 & H3 & H4 & H5 & Hproto & _ & _).
  rewrite (ownDescriptor_prototypes _ _ _ _ Hproto).
  carry_own H5 (sameOwn_fieldsLoop production Ctor meta Ctor name).
  carry_own H4 (sameOwn_trackLoop production Ctor meta Ctor name Htrack).
  carry_own H3 (sameOwn_wireLoop production Ctor meta Ctor name Hwire).
  carry_own H2 (sameOwn_publicMethodsLoop production Ctor meta Ctor name).
  rewrite Hf, Hf0, Hf1, Hf2.
  by eapply publicPropsLoop_Normal.
Qed.

(** X9. A completed registration returns the constructor it was given and
    stores [publicMethods] as [apiMethods] verbatim (same order, repeated
    names repeated) and [fields] as it came, even when it is absent. *)
Theorem methods_and_fields_are_passed_through `{!Collaborators}
    production Ctor meta s r s' :
  registerDecorators production Ctor meta s = (Normal r, s') →
  r = Ctor
  ∧ DecoratorMeta.apiMethods (getDecoratorsMeta Ctor s')
    = default [] (RegisterDecoratorMeta.publicMethods meta)
  ∧ DecoratorMeta.fields (getDecoratorsMeta Ctor s')
    = Entry (RegisterDecoratorMeta.fields meta).
Proof.
  intros Hrun.
  pose proof (registerDecorators_stored _ _ _ _ _ _ Hrun) as [_ ->].
  by apply registerDecorators_Normal_registry in Hrun as [-> _].
Qed.

(** ** A field-style name that is taken *)

Section Occupied.
Context `{!Collaborators} (Ctor : ComponentConstructor) (name : string).

Lemma publicPropsBody_occupied def acc s :
  PropCompilerDef.config def = Field →
  is_Some (ownDescriptor Ctor name s) → aborts (publicPropsBody false Ctor (name, def) acc) s.
Proof.
  intros Hkind [d Hd]. unfold publicPropsBody.
  rewrite bool_decide_eq_false_2 by (rewrite Hkind; simpl; lia).
  do 2 apply aborts_bind_l. cbn [negb]. unfold aborts.
  rewrite validateFieldDecoratedWithApi_dev, Hd. by eexists _, _.
Qed.

Lemma wireBody_occupied def acc s :
  ¬ isMethodBinding (name, def) →
  is_Some (ownDescriptor Ctor name s) → aborts (wireBody false Ctor (name, def) acc) s.
Proof.
  intros Hkind Hocc. destruct acc as [wm wf]. unfold aborts.
  rewrite wireBody_field by done.
  cbn [negb andb]. rewrite bool_decide_eq_true_2 by done. by eexists _, _.
Qed.

Lemma trackBody_occupied v acc s :
  is_Some (ownDescriptor Ctor name s) → aborts (trackBody false Ctor (name, v) acc) s.
Proof.
  intros [d Hd]. unfold trackBody. apply aborts_bind_l. cbn [negb]. unfold aborts.
  rewrite validateFieldDecoratedWithTrack_dev, Hd. by eexists _, _.
Qed.

Lemma fieldsBody_occupied acc s :
  is_Some (ownDescriptor Ctor name s) → aborts (fieldsBody false Ctor name acc) s.
Proof.
  intros [d Hd]. unfold fieldsBody. cbn [negb]. unfold aborts.
  rewrite validateObservedField_dev, Hd. by eexists _, _.
Qed.

Lemma keepsOwn_publicPropsBody production entry acc s :
  is_Some (ownDescriptor Ctor name s) → is_Some (ownDescriptor Ctor name (publicPropsBody production Ctor entry acc s).2).
Proof.
  apply (frames_publicPropsBody production (keepsOwn Ctor name)).
  intros. apply frames_definePropertyOnPrototype_keepsOwn.
Qed.

Lemma keepsOwn_wireBody production entry acc s :
  is_Some (ownDescriptor Ctor name s) → is_Some (ownDescriptor Ctor name (wireBody production Ctor entry acc s).2).
Proof.
  apply (frames_wireBody production (keepsOwn Ctor name)).
  - intros. apply frames_definePropertyOnPrototype_keepsOwn.
  - intros adapter method cb [p r w]. by unfold keepsOwn.
  - intros adapter cb [p r w]. by unfold keepsOwn.
Qed.

Lemma keepsOwn_trackBody production entry acc s :
  is_Some (ownDescriptor Ctor name s) → is_Some (ownDescriptor Ctor name (trackBody production Ctor entry acc s).2).
Proof.
  apply (frames_trackBody production (keepsOwn Ctor name)).
  intros. apply frames_definePropertyOnPrototype_keepsOwn.
Qed.

Lemma publicPropsLoop_occupied meta s :
  declaresPublicField meta name → is_Some (ownDescriptor Ctor name s) →
  aborts (publicPropsLoop false Ctor meta) s.
Proof.
  intros (def & Hin & Hkind) Hocc. unfold publicPropsLoop.
  destruct (RegisterDecoratorMeta.publicProps meta) as [props|];
    [|by apply elem_of_nil in Hin].
  simpl in *.
  apply (forEachM_aborts _ (λ s', is_Some (ownDescriptor Ctor name s')) (name, def));
    [by rewrite elem_of_forInEntries| | |done].
  - intros y _. right. intros acc s0. apply keepsOwn_publicPropsBody.
  - intros acc s0. by apply publicPropsBody_occupied.
Qed.

Lemma wireLoop_occupied meta s :
  declaresWiredField meta name → is_Some (ownDescriptor Ctor name s) →
  aborts (wireLoop false Ctor meta) s.
Proof.
  unfold declaresWiredField, wiredFieldEntries, wireLoop, keys. intros Hin Hocc.
  apply list_elem_of_fmap in Hin as ([k def] & Hk & Hin). simpl in Hk. subst k.
  apply list_elem_of_filter in Hin as [Hkind Hin].
  destruct (RegisterDecoratorMeta.wire meta) as [w|]; [|by apply elem_of_nil in Hin].
  simpl in *.
  apply (forEachM_aborts _ (λ s', is_Some (ownDescriptor Ctor name s')) (name, def));
    [by rewrite elem_of_forInEntries| | |done].
  - intros y _. right. intros acc s0. apply keepsOwn_wireBody.
  - intros acc s0. by apply wireBody_occupied.
Qed.

Lemma trackLoop_occupied meta s :
  declaresTracked meta name → is_Some (ownDescriptor Ctor name s) →
  aborts (trackLoop false Ctor meta) s.
Proof.
  unfold declaresTracked, trackLoop, keys. intros Hin Hocc.
  apply list_elem_of_fmap in Hin as ([k v] & Hk & Hin). simpl in Hk. subst k.
  destruct (RegisterDecoratorMeta.track meta) as [t|]; [|by apply elem_of_nil in Hin].
  simpl in *.
  apply (forEachM_aborts _ (λ s', is_Some (ownDescriptor Ctor name s')) (name, v));
    [by rewrite elem_of_forInEntries| | |done].
  - intros y _. right. intros acc s0. apply keepsOwn_trackBody.
  - intros acc s0. by apply trackBody_occupied.
Qed.

Lemma fieldsLoop_occupied meta s :
  declaresObserved meta name → is_Some (ownDescriptor Ctor name s) →
  aborts (fieldsLoop false Ctor meta) s.
Proof.
  unfold declaresObserved, fieldsLoop. intros Hin Hocc.
  destruct (RegisterDecoratorMeta.fields meta) as [l|]; [|by apply elem_of_nil in Hin].
  simpl in *.
  apply (forEachM_aborts _ (λ s', is_Some (ownDescriptor Ctor name s')) name); [done| | |done].
  - intros y _. right. intros acc s0.
    apply (frames_fieldsBody false (keepsOwn Ctor name)).
  - intros acc s0. by apply fieldsBody_occupied.
Qed.

Local Ltac carry_occupied Hloop Hframe :=
  let Hf := fresh "Hocc" in
  match type of Hloop with
  | ?m ?s = _ => pose proof (Hframe s) as Hf; rewrite Hloop in Hf;
                 unfold keepsOwn in Hf; simpl in Hf
  end.

(** Once the name is taken, the rest of a registration outside production
    mode aborts at the first later loop that declares the name in field
    style. *)
Lemma aborts_from_fieldsLoop {B} meta (k : unit → M B) s :
  declaresObserved meta name → is_Some (ownDescriptor Ctor name s) →
  aborts (fieldsLoop false Ctor meta ≫= k) s.
Proof. intros. by apply aborts_bind_l, fieldsLoop_occupied. Qed.

Lemma aborts_from_trackLoop {B} meta (k : unit → M B) s :
  declaresTracked meta name ∨ declaresObserved meta name → is_Some (ownDescriptor Ctor name s) →
  aborts (trackLoop false Ctor meta ≫= (λ _, fieldsLoop false Ctor meta ≫= k)) s.
Proof.
  intros [Ht|Ho] Hocc.
  - by apply aborts_bind_l, trackLoop_occupied.
  - apply aborts_bind. intros [] s1 Hloop.
    carry_occupied Hloop (keepsOwn_trackLoop false Ctor meta Ctor name).
    apply aborts_from_fieldsLoop; auto.
Qed.

Lemma aborts_from_wireLoop {B} meta (k : list string * list string → unit → M B) s :
  declaresWiredField meta name ∨ declaresTracked meta name ∨ declaresObserved meta name →
  is_Some (ownDescriptor Ctor name s) →
  aborts (wireLoop false Ctor meta
          ≫= (λ wired, trackLoop false Ctor meta
                       ≫= (λ _, fieldsLoop false Ctor meta ≫= k wired))) s.
Proof.
  intros [Hw|Hlater] Hocc.
  - by apply aborts_bind_l, wireLoop_occupied.
  - apply aborts_bind. intros wired s1 Hloop.
    carry_occupied Hloop (keepsOwn_wireLoop false Ctor meta Ctor name).
    apply aborts_from_trackLoop; auto.
Qed.

Lemma aborts_from_publicMethodsLoop {B} meta
    (k : list string → list string * list string → unit → M B) s :
  declaresWiredField meta name ∨ declaresTracked meta name ∨ declaresObserved meta name →
  is_Some (ownDescriptor Ctor name s) →
  aborts (publicMethodsLoop false Ctor meta
          ≫= (λ apiMethods,
                wireLoop false Ctor meta
                ≫= (λ wired, trackLoop false Ctor meta
                             ≫= (λ _, fieldsLoop false Ctor meta ≫= k apiMethods wired)))) s.
Proof.
  intros Hlater Hocc. apply aborts_bind. intros apiMethods s1 Hloop.
  carry_occupied Hloop (keepsOwn_publicMethodsLoop false Ctor meta Ctor name).
  apply aborts_from_wireLoop; auto.
Qed.

Lemma occupied_field_aborts meta s :
  declaresPublicField meta name ∨ declaresWiredField meta name
  ∨ declaresTracked meta name ∨ declaresObserved meta name →
  is_Some (ownDescriptor Ctor name s) →
  aborts (registerDecorators false Ctor meta) s.
Proof.
  intros [Hp|Hlater] Hocc; rewrite registerDecorators_loops.
  - by apply aborts_bind_l, publicPropsLoop_occupied.
  - apply aborts_bind. intros apiFields s1 Hloop.
    carry_occupied Hloop (keepsOwn_publicPropsLoop false Ctor meta Ctor name).
    apply (aborts_from_publicMethodsLoop meta
             (λ apiMethods wired _,
                setDecoratorsMeta Ctor
                  (DecoratorMeta.mk apiMethods apiFields wired.1 wired.2
                     (Entry (RegisterDecoratorMeta.fields meta)));;
                mret Ctor)); auto.
Qed.

(** A completed first loop has taken every public prop name, a completed
    registration every name it installs. *)
Lemma publicPropsLoop_takes production meta s a s' :
  publicPropsLoop production Ctor meta s = (Normal a, s') →
  name ∈ keys (default [] (RegisterDecoratorMeta.publicProps meta)) →
  is_Some (ownDescriptor Ctor name s').
Proof.
  unfold publicPropsLoop, keys.
  destruct (RegisterDecoratorMeta.publicProps meta) as [props|]; simpl;
    [|intros _ Hin; by apply elem_of_nil in Hin].
  intros Hrun Hin. apply list_elem_of_fmap in Hin as ([k def] & Hk & Hin).
  simpl in Hk. subst k.
  change (is_Some (ownDescriptor Ctor (name, def).1 s')).
  apply (forEachM_Normal_each (publicPropsBody production Ctor)
           (λ x s, is_Some (ownDescriptor Ctor x.1 s)) (forInEntries props))
    with [] s a; [| |done|by rewrite elem_of_forInEntries].
  - intros [k d] acc s0 a0 s0' _ Hx. simpl.
    apply publicPropsBody_Normal in Hx as [Hfield Hacc].
    destruct (PropCompilerDef.config d) eqn:Hd.
    + rewrite (Hfield eq_refl). by eexists.
    + destruct (Hacc ltac:(discriminate)) as (wrapped & _ & ->). by eexists.
    + destruct (Hacc ltac:(discriminate)) as (wrapped & _ & ->). by eexists.
    + destruct (Hacc ltac:(discriminate)) as (wrapped & _ & ->). by eexists.
  - intros x y acc s0 a0 s0' _ _ Hy Hx.
    pose proof (frames_publicPropsBody production (keepsOwn Ctor x.1) Ctor y acc
                  ltac:(intros; apply frames_definePropertyOnPrototype_keepsOwn) s0)
      as Hkeep.
    rewrite Hy in Hkeep. by apply Hkeep.
Qed.

Lemma registerDecorators_takes production meta s r s' :
  registerDecorators production Ctor meta s = (Normal r, s') →
  name ∈ installedNames meta →
  is_Some (ownDescriptor Ctor name s').
Proof.
  intros Hrun Hin.
  apply registerDecorators_Normal_inv in Hrun
    as (apiFields & s1 & apiMethods & s2 & wired & s3 & s4 & s5
        & H1 & H2 & H3 & H4 & H5 & Hproto & _ & _).
  rewrite (ownDescriptor_prototypes _ _ _ _ Hproto).
  carry_occupied H5 (keepsOwn_fieldsLoop production Ctor meta Ctor name).
  carry_occupied H4 (keepsOwn_trackLoop production Ctor meta Ctor name).
  carry_occupied H3 (keepsOwn_wireLoop production Ctor meta Ctor name).
  carry_occupied H2 (keepsOwn_publicMethodsLoop production Ctor meta Ctor name).
  unfold installedNames in Hin. rewrite !elem_of_app in Hin.
  destruct Hin as [Hp|[Hw|Ht]].
  - apply Hocc, Hocc0, Hocc1, Hocc2. by eapply publicPropsLoop_takes.
  - apply Hocc, Hocc0. rewrite (wireLoop_Normal production Ctor meta s2 wired s3 name);
      [by eexists|done|done].
  - apply Hocc. rewrite (trackLoop_Normal production Ctor meta s3 () s4 name);
      [by eexists|done|done].
Qed.
End Occupied.

(** X10. Outside production mode a registration aborts, leaving the
    registry alone, whenever it declares in field style (as a Field public
    prop, a wired field, a tracked field or an observed field) a name under
    which the prototype already has an own property, a method or an
    accessor the author wrote for instance. *)
Theorem field_declaration_over_own_property_aborts `{!Collaborators}
    Ctor meta name s :
  is_Some (ownDescriptor Ctor name s) →
  declaresPublicField meta name ∨ declaresWiredField meta name
  ∨ declaresTracked meta name ∨ declaresObserved meta name →
  ∃ e s',
    registerDecorators false Ctor meta s = (Throw e, s')
    ∧ signedDecoratorToMetaMap s' = signedDecoratorToMetaMap s.
Proof.
  intros Hocc Hdecl. apply aborts_keeps_registry.
  by apply occupied_field_aborts with name.
Qed.

(** X11. Registering a class a second time outside production mode aborts
    as soon as the second metadata declares in field style a name the first
    registration installed (a public prop, a wired field or a tracked
    field): the descriptor of the first registration is in the way. The
    entry of the first registration stays. *)
Theorem reregistering_an_installed_field_aborts `{!Collaborators}
    production Ctor meta1 meta2 name s0 r s1 :
  registerDecorators production Ctor meta1 s0 = (Normal r, s1) →
  name ∈ installedNames meta1 →
  declaresPublicField meta2 name ∨ declaresWiredField meta2 name
  ∨ declaresTracked meta2 name ∨ declaresObserved meta2 name →
  ∃ e s2,
    registerDecorators false Ctor meta2 s1 = (Throw e, s2)
    ∧ getDecoratorsMeta Ctor s2 = resolve meta1.
Proof.
  intros Hfirst Hname Hdecl.
  pose proof (registerDecorators_takes Ctor name _ _ _ _ _ Hfirst Hname) as Hocc.
  destruct (aborts_keeps_registry false Ctor meta2 s1) as (e & s2 & Hrun & Hreg).
  { by apply occupied_field_aborts with name. }
  exists e, s2. split; [done|].
  apply registerDecorators_stored in Hfirst as [Hstored _].
  unfold getDecoratorsMeta. by rewrite Hreg, Hstored.
Qed.

(** X12. Outside production mode the field-style categories exclude one
    another: a registration whose metadata has the same name as a public
    prop and as a wired, tracked or observed field, or as a wired field and
    as a tracked or observed field, or as a tracked and as an observed
    field, aborts and leaves the registry alone. The earlier loop installs
    its descriptor, the validator of the later one finds it. *)
Theorem name_in_two_field_categories_aborts `{!Collaborators} Ctor meta name s :
  (name ∈ keys (default [] (RegisterDecoratorMeta.publicProps meta))
   ∧ (declaresWiredField meta name ∨ declaresTracked meta name
      ∨ declaresObserved meta name))
  ∨ (declaresWiredField meta name
     ∧ (declaresTracked meta name ∨ declaresObserved meta name))
  ∨ (declaresTracked meta name ∧ declaresObserved meta name) →
  ∃ e s',
    registerDecorators false Ctor meta s = (Throw e, s')
    ∧ signedDecoratorToMetaMap s' = signedDecoratorToMetaMap s.
Proof.
  intros Hdecl. apply aborts_keeps_registry. rewrite registerDecorators_loops.
  apply aborts_bind. intros apiFields s1 H1.
  destruct Hdecl as [[Hp Hlater]|Hdecl].
  { apply (aborts_from_publicMethodsLoop Ctor name meta
             (λ apiMethods wired _,
                setDecoratorsMeta Ctor
                  (DecoratorMeta.mk apiMethods apiFields wired.1 wired.2
                     (Entry (RegisterDecoratorMeta.fields meta)));;
                mret Ctor)); [done|].
    by eapply publicPropsLoop_takes. }
  apply aborts_bind. intros apiMethods s2 H2.
  apply aborts_bind. intros wired s3 H3.
  destruct Hdecl as [[Hw Hlater]|[Ht Ho]].
  { apply (aborts_from_trackLoop Ctor name meta); [done|].
    rewrite (wireLoop_Normal false Ctor meta s2 wired s3 name); [by eexists|done|done]. }
  apply aborts_bind. intros [] s4 H4.
  apply (aborts_from_fieldsLoop Ctor name meta); [done|].
  rewrite (trackLoop_Normal false Ctor meta s3 () s4 name); [by eexists|done|done].
Qed.

(** ** When a registration completes *)

Lemma completes_bind {A B} (m : M A) (f : A → M B) s :
  completes m s → (∀ a s1, m s = (Normal a, s1) → completes (f a) s1) →
  completes (m ≫= f) s.
Proof.
  intros (a & s1 & Hm) Hf. unfold completes. rewrite (bind_Normal m f s a s1 Hm).
  by apply Hf.
Qed.

Lemma completes_not_aborts {A} (m : M A) s : completes m s → aborts m s → False.
Proof. intros (a & s1 & Hm) (e & s2 & He). congruence. Qed.

Lemma forEachM_completes {A L} (body : A → L → M L) xs :
  (∀ x acc s, x ∈ xs → completes (body x acc) s) →
  ∀ acc s, completes (forEachM body xs acc) s.
Proof.
  induction xs as [|x xs IH]; intros Hbody acc s.
  - by eexists _, _.
  - rewrite forEachM_cons. apply completes_bind.
    + apply Hbody. by left.
    + intros acc' s1 _. apply IH. intros y acc0 s0 Hy. apply Hbody. by right.
Qed.

(** A loop of bodies that read the state and never write it completes
    when every body completes in the state the loop starts in. *)
Lemma forEachM_reader_completes {A L} (body : A → L → M L) xs s :
  (∀ x acc, x ∈ xs → ∃ a, body x acc s = (Normal a, s)) →
  ∀ acc, ∃ a, forEachM body xs acc s = (Normal a, s).
Proof.
  induction xs as [|x xs IH]; intros Hbody acc.
  - by eexists.
  - rewrite forEachM_cons. destruct (Hbody x acc) as [acc' Hx]; [by left|].
    rewrite (bind_Normal _ _ s acc' s Hx).
    apply IH. intros y acc0 Hy. apply Hbody. by right.
Qed.

Section Completion.
Context `{!Collaborators} (Ctor : ComponentConstructor).

Lemma publicMethodsBody_production name acc s :
  publicMethodsBody true Ctor name acc s = (Normal (ArrayPush acc name), s).
Proof. reflexivity. Qed.

Lemma fieldsBody_production name acc s :
  fieldsBody true Ctor name acc s = (Normal (), s).
Proof. by destruct acc. Qed.

Lemma publicMethodsBody_dev name acc s :
  publicMethodsBody false Ctor name acc s
  = if invalidMethodDescriptor (ownDescriptor Ctor name s)
    then (Throw (Error (apiMethodDiagnostic name)), s)
    else (Normal (ArrayPush acc name), s).
Proof.
  unfold publicMethodsBody. cbn [negb]. unfold mbind, M_bind.
  rewrite validateMethodDecoratedWithApi_dev.
  by destruct (invalidMethodDescriptor _).
Qed.

Lemma fieldsBody_dev name acc s :
  fieldsBody false Ctor name acc s
  = match ownDescriptor Ctor name s with
    | Some _ =>
        (Throw (Error ("Compiler Error: Invalid field " +:+ name +:+ " declaration.")), s)
    | None => (Normal (), s)
    end.
Proof. unfold fieldsBody. cbn [negb]. apply validateObservedField_dev. Qed.
End Completion.

(** The wire loop of production mode over method bindings whose names are
    own data properties: every read yields the value the prototype holds,
    and every entry adds its call. *)
Lemma wireLoop_production_methods `{!Collaborators} Ctor s xs :
  Forall isMethodBinding xs →
  Forall (λ entry, ownDataProperty Ctor entry.1 s) xs →
  ∀ acc s0,
    prototypes s0 = prototypes s →
    forEachM (wireBody true Ctor) xs acc s0
    = (Normal (acc.1 ++ keys xs, acc.2),
       mkState (prototypes s0) (signedDecoratorToMetaMap s0)
         (wiring s0 ++ (wiredMethodCall Ctor s <$> xs))).
Proof.
  induction xs as [|[name def] xs IH]; intros Hkind Hdata [wm wf] s0 Hproto.
  - destruct s0. simpl. by rewrite !app_nil_r.
  - apply Forall_cons in Hkind as [Hm Hkind]. apply Forall_cons in Hdata as [Hd Hdata].
    unfold isMethodBinding in Hm. unfold ownDataProperty in Hd. simpl in Hm, Hd.
    rewrite forEachM_cons.
    assert (wireBody true Ctor (name, def) (wm, wf) s0
            = (Normal (wm ++ [name], wf),
               afterMethodBinding Ctor name def
                 (match ownDescriptor Ctor name s with
                  | Some d => desc_value d
                  | None => VUndefined
                  end) s0)) as Hbody.
    { rewrite wireBody_method by done. cbn [negb andb].
      unfold ordinaryGet, ownDescriptor, prototype in *. rewrite Hproto.
      by destruct (own (prototypes s !!! Ctor) !! name) as [[v w en c|g st en c]|]. }
    rewrite (bind_Normal _ _ _ _ _ Hbody).
    rewrite (IH Hkind Hdata) by exact Hproto. simpl.
    unfold keys. rewrite <- !app_assoc. done.
Qed.

(** X13. In production mode a registration that declares only public
    methods, wired methods and observed fields completes whenever every
    wired-method name is an own data property of the prototype, whatever
    that property holds and whatever the prototype holds or lacks under the
    public-method and observed-field names. It stores the resolved metadata,
    leaves every prototype exactly as it was, and hands each wired method to
    [storeWiredMethodMeta] with the value of its data property, function or
    not. *)
Theorem production_methods_only_completes `{!Collaborators} Ctor meta s :
  RegisterDecoratorMeta.publicProps meta = None →
  RegisterDecoratorMeta.track meta = None →
  Forall isMethodBinding (default [] (RegisterDecoratorMeta.wire meta)) →
  Forall (λ entry, ownDataProperty Ctor entry.1 s)
    (default [] (RegisterDecoratorMeta.wire meta)) →
  ∃ s',
    registerDecorators true Ctor meta s = (Normal Ctor, s')
    ∧ prototypes s' = prototypes s
    ∧ signedDecoratorToMetaMap s' = <[Ctor := resolve meta]> (signedDecoratorToMetaMap s)
    ∧ wiring s'
      = wiring s
        ++ (wiredMethodCall Ctor s
              <$> default [] (forInEntries <$> RegisterDecoratorMeta.wire meta)).
Proof.
  intros Hprops Htrack Hkind Hdata.
  assert (∃ apiMethods,
            whenDefined (RegisterDecoratorMeta.publicMethods meta)
              (λ publicMethods, forEachM (publicMethodsBody true Ctor) publicMethods)
              [] s = (Normal apiMethods, s)) as [apiMethods Hloop2].
  { destruct (RegisterDecoratorMeta.publicMethods meta) as [l|]; simpl; [|by eexists].
    apply forEachM_reader_completes. intros name acc _.
    rewrite publicMethodsBody_production. by eexists. }
  assert (∃ wired,
            whenDefined (RegisterDecoratorMeta.wire meta)
              (λ wire, forEachM (wireBody true Ctor) (forInEntries wire)) ([], []) s
            = (Normal wired,
               mkState (prototypes s) (signedDecoratorToMetaMap s)
                 (wiring s
                  ++ (wiredMethodCall Ctor s
                        <$> default [] (forInEntries <$> RegisterDecoratorMeta.wire meta)))))
    as [wired Hloop3].
  { destruct (RegisterDecoratorMeta.wire meta) as [w|]; simpl in *.
    - eexists. apply wireLoop_production_methods; [| |done].
      + rewrite Forall_forall in Hkind. apply Forall_forall. intros entry Hin.
        apply Hkind. by rewrite <- elem_of_forInEntries.
      + rewrite Forall_forall in Hdata. apply Forall_forall. intros entry Hin.
        apply Hdata. by rewrite <- elem_of_forInEntries.
    - exists ([], []). destruct s. simpl. by rewrite app_nil_r. }
  set (s3 := mkState (prototypes s) (signedDecoratorToMetaMap s)
               (wiring s
                ++ (wiredMethodCall Ctor s
                      <$> default [] (forInEntries <$> RegisterDecoratorMeta.wire meta))))
    in *.
  assert (whenDefined (RegisterDecoratorMeta.fields meta)
            (λ fields, forEachM (fieldsBody true Ctor) fields) () s3 = (Normal (), s3))
    as Hloop5.
  { destruct (RegisterDecoratorMeta.fields meta) as [l|]; simpl; [|done].
    destruct (forEachM_reader_completes (fieldsBody true Ctor) l s3) with ()
      as [[] Hloop]; [|done].
    intros name [] _. rewrite fieldsBody_production. by eexists. }
  assert (∃ s', registerDecorators true Ctor meta s = (Normal Ctor, s')
                ∧ prototypes s' = prototypes s
                ∧ wiring s' = wiring s3) as (s' & Hrun & Hproto & Hwiring).
  { rewrite registerDecorators_loops.
    unfold publicPropsLoop, publicMethodsLoop, wireLoop, trackLoop, fieldsLoop.
    rewrite Hprops, Htrack. cbn [whenDefined].
    rewrite (bind_Normal (mret []) _ s [] s) by done.
    rewrite (bind_Normal _ _ s apiMethods s Hloop2).
    rewrite (bind_Normal _ _ s wired s3 Hloop3).
    rewrite (bind_Normal (mret ()) _ s3 () s3) by done.
    rewrite (bind_Normal _ _ s3 () s3 Hloop5).
    by eexists. }
  exists s'. split; [done|]. split; [done|]. split; [|done].
  by apply registerDecorators_Normal_registry in Hrun as [_ Hreg].
Qed.


(** X14. Outside production mode a registration that declares only public
    methods and observed fields completes exactly when every listed method
    has an own data descriptor holding a function that is not non-writable,
    and no observed field name is an own property of the prototype. *)
Theorem dev_methods_and_fields_acceptance `{!Collaborators} Ctor meta s :
  RegisterDecoratorMeta.publicProps meta = None →
  RegisterDecoratorMeta.wire meta = None →
  RegisterDecoratorMeta.track meta = None →
  (∃ s', registerDecorators false Ctor meta s = (Normal Ctor, s'))
  ↔ Forall (λ name, invalidMethodDescriptor (ownDescriptor Ctor name s) = false)
      (default [] (RegisterDecoratorMeta.publicMethods meta))
    ∧ Forall (λ name, ownDescriptor Ctor name s = None)
        (default [] (RegisterDecoratorMeta.fields meta)).
Proof.
  intros Hprops Hwire Htrack. split.
  - intros [s' Hrun].
    assert (completes (registerDecorators false Ctor meta) s) as Hcompletes
      by by eexists _, _.
    split; apply Forall_forall; intros name Hin.
    + destruct (invalidMethodDescriptor (ownDescriptor Ctor name s)) eqn:Hinv; [|done].
      destruct (completes_not_aborts _ _ Hcompletes).
      apply registerDecorators_aborts_publicMethods with name; [done| |done].
      rewrite Hprops. simpl. apply not_elem_of_nil.
    + destruct (ownDescriptor Ctor name s) as [d|] eqn:Hown; [|done].
      destruct (completes_not_aborts _ _ Hcompletes).
      apply occupied_field_aborts with name; [|by rewrite Hown].
      by do 3 right.
  - intros [Hmethods Hfields]. rewrite Forall_forall in Hmethods, Hfields.
    rewrite registerDecorators_loops.
    unfold publicPropsLoop, publicMethodsLoop, wireLoop, trackLoop, fieldsLoop.
    rewrite Hprops, Hwire, Htrack. cbn [whenDefined].
    rewrite (bind_Normal (mret []) _ s [] s) by done.
    assert (∃ apiMethods,
              whenDefined (RegisterDecoratorMeta.publicMethods meta)
                (λ publicMethods, forEachM (publicMethodsBody false Ctor) publicMethods)
                [] s = (Normal apiMethods, s)) as [apiMethods Hloop2].
    { destruct (RegisterDecoratorMeta.publicMethods meta) as [l|]; simpl in *;
        [|by eexists].
      apply forEachM_reader_completes. intros name acc Hin.
      rewrite publicMethodsBody_dev, (Hmethods name Hin). by eexists. }
    rewrite (bind_Normal _ _ s apiMethods s Hloop2).
    rewrite (bind_Normal (mret ([], [])) _ s ([], []) s) by done.
    rewrite (bind_Normal (mret ()) _ s () s) by done.
    assert (whenDefined (RegisterDecoratorMeta.fields meta)
              (λ fields, forEachM (fieldsBody false Ctor) fields) () s = (Normal (), s))
      as Hloop5.
    { destruct (RegisterDecoratorMeta.fields meta) as [l|]; simpl in *; [|done].
      destruct (forEachM_reader_completes (fieldsBody false Ctor) l s) with ()
        as [[] Hloop]; [|done].
      intros name [] Hin. rewrite fieldsBody_dev, (Hfields name Hin). by eexists. }
    rewrite (bind_Normal _ _ s () s Hloop5). by eexists.
Qed.

(** X15. [setDecoratorsMeta] followed by [getDecoratorsMeta]: the class
    written reads back what was written, in place of anything stored for it
    before; every other class reads what it read before; prototypes and
    wiring are not touched. *)
Theorem set_then_get_decorators_meta Ctor stored C s :
  let s' := (setDecoratorsMeta Ctor stored s).2 in
  getDecoratorsMeta Ctor s' = stored
  ∧ (C ≠ Ctor → getDecoratorsMeta C s' = getDecoratorsMeta C s)
  ∧ prototypes s' = prototypes s
  ∧ wiring s' = wiring s.
Proof.
  intros s'. unfold s', getDecoratorsMeta, setDecoratorsMeta. simpl.
  rewrite lookup_insert_eq. split; [done|]. split; [|done].
  intros Hne. by rewrite lookup_insert_ne.
Qed.

(** ** The exceptions of production mode *)

Section Raises.
Context (E : Exception → Prop).

Lemma raises_ret {A} (a : A) : raises E (mret a).
Proof. intros s e s' Hrun. discriminate. Qed.

Lemma raises_bind {A B} (m : M A) (f : A → M B) :
  raises E m → (∀ a, raises E (f a)) → raises E (m ≫= f).
Proof.
  intros Hm Hf s e s' Hrun.
  destruct (bind_cases m f s) as [(a & s1 & Ha & Heq)|(e1 & s1 & He & Heq)];
    rewrite Heq in Hrun.
  - by eapply Hf.
  - injection Hrun as <- <-. by eapply Hm.
Qed.

Lemma raises_forEachM {A L} (body : A → L → M L) xs :
  (∀ x acc, x ∈ xs → raises E (body x acc)) →
  ∀ acc, raises E (forEachM body xs acc).
Proof.
  induction xs as [|x xs IH]; intros Hbody acc.
  - apply raises_ret.
  - rewrite forEachM_cons. apply raises_bind.
    + apply Hbody. by left.
    + intros acc'. apply IH. intros y acc0 Hy. apply Hbody. by right.
Qed.

Lemma raises_whenDefined {A L} (x : option A) (loop : A → L → M L) acc :
  (∀ a, x = Some a → raises E (loop a acc)) → raises E (whenDefined x loop acc).
Proof. destruct x; simpl; [auto|intros; apply raises_ret]. Qed.
End Raises.

Lemma raises_definePropertyOnPrototype (E : Exception → Prop) Ctor P Desc :
  E (TypeError ("Cannot redefine property: " +:+ P)) →
  E (TypeError ("Cannot define property " +:+ P +:+ ", object is not extensible")) →
  raises E (definePropertyOnPrototype Ctor P Desc).
Proof.
  intros Hredefine Hdefine s e s'. unfold definePropertyOnPrototype.
  destruct (defineProperty _ _ _); intros Hrun; [discriminate|].
  injection Hrun as <- <-. unfold definePropertyError. by destruct (own _ !! _).
Qed.

(** X16. In production mode no validator speaks. A registration that aborts
    does so with the [TypeError] of [defineProperty] under one of the names
    it installs (a property that cannot be redefined, or a new property on a
    prototype that is not extensible), or with what
    [createPublicAccessorDescriptor] threw for one of its public props, or
    with what the read of [proto[name]] threw for one of its wired
    methods. *)
Theorem production_aborts_come_from_installing `{!Collaborators} Ctor meta s e s' :
  registerDecorators true Ctor meta s = (Throw e, s') →
  (∃ P, P ∈ installedNames meta
        ∧ (e = TypeError ("Cannot redefine property: " +:+ P)
           ∨ e = TypeError ("Cannot define property " +:+ P
                            +:+ ", object is not extensible")))
  ∨ (∃ name descriptor,
       name ∈ keys (default [] (RegisterDecoratorMeta.publicProps meta))
       ∧ createPublicAccessorDescriptor name descriptor = inl e)
  ∨ (∃ entry s0,
       entry ∈ default [] (RegisterDecoratorMeta.wire meta)
       ∧ isMethodBinding entry
       ∧ ordinaryGet Ctor (prototype s0 Ctor) entry.1 s0 = inl e).
Proof.
  assert (raises (productionAbortSource Ctor meta) (registerDecorators true Ctor meta))
    as Hraises; [|intros Hrun; exact (Hraises s e s' Hrun)].
  assert (∀ P, P ∈ installedNames meta → ∀ Desc,
            raises (productionAbortSource Ctor meta) (definePropertyOnPrototype Ctor P Desc))
    as Hdefine.
  { intros P HP Desc. apply raises_definePropertyOnPrototype; left; exists P; auto. }
  rewrite registerDecorators_loops.
  unfold publicPropsLoop, publicMethodsLoop, wireLoop, trackLoop, fieldsLoop.
  apply raises_bind; [|intros apiFields].
  { apply raises_whenDefined. intros props Hprops.
    apply raises_forEachM. intros [name def] acc Hin.
    rewrite elem_of_forInEntries in Hin.
    assert (name ∈ keys (default [] (RegisterDecoratorMeta.publicProps meta))) as Hname.
    { rewrite Hprops. unfold keys. apply list_elem_of_fmap. by exists (name, def). }
    unfold publicPropsBody. cbn [negb].
    apply raises_bind; [|intros d; apply raises_bind; [|intros; apply raises_ret]].
    - case_bool_decide.
      + apply raises_bind; [apply raises_ret|intros _].
        apply raises_bind; [intros s0 e0 s0' Hrun; discriminate|intros d].
        destruct (createPublicAccessorDescriptor name d) as [e0|wrapped] eqn:Hwrap;
          [|apply raises_ret].
        intros s0 e1 s0' Hrun. injection Hrun as <- <-. right. left. by exists name, d.
      + apply raises_bind; [apply raises_ret|intros; apply raises_ret].
    - apply Hdefine. unfold installedNames. rewrite elem_of_app. by left. }
  apply raises_bind; [|intros apiMethods].
  { apply raises_whenDefined. intros l _. apply raises_forEachM.
    intros name acc _ s0 e0 s0'. by rewrite publicMethodsBody_production. }
  apply raises_bind; [|intros wired].
  { apply raises_whenDefined. intros w Hw. apply raises_forEachM.
    intros [name def] [wm wf] Hin s0 e0 s0'. rewrite elem_of_forInEntries in Hin.
    destruct (decide (isMethodBinding (name, def))) as [Hkind|Hkind].
    - rewrite wireBody_method by done. cbn [negb andb].
      destruct (ordinaryGet _ _ _ _) as [e1|existing] eqn:Hget; [|done].
      intros Hrun. injection Hrun as <- <-. right. right.
      exists (name, def), s0. rewrite Hw. done.
    - rewrite wireBody_field by done. cbn [negb andb].
      destruct (defineProperty _ _ _); [done|].
      intros Hrun. injection Hrun as <- <-. left. exists name. split.
      + unfold installedNames, wiredFieldEntries, keys. rewrite Hw. simpl.
        rewrite !elem_of_app. right. left.
        apply list_elem_of_fmap. exists (name, def). split; [done|].
        by apply list_elem_of_filter.
      + unfold definePropertyError. destruct (own _ !! _); auto. }
  apply raises_bind; [|intros []].
  { apply raises_whenDefined. intros t Ht. apply raises_forEachM.
    intros [name v] [] Hin. rewrite elem_of_forInEntries in Hin.
    unfold trackBody. cbn [negb].
    apply raises_bind; [apply raises_ret|intros _].
    apply Hdefine. unfold installedNames, keys. rewrite Ht. simpl.
    rewrite !elem_of_app. right. right.
    apply list_elem_of_fmap. by exists (name, v). }
  apply raises_bind; [|intros []].
  { apply raises_whenDefined. intros l _. apply raises_forEachM.
    intros name [] _ s0 e0 s0'. by rewrite fieldsBody_production. }
  apply raises_bind; [intros s0 e0 s0' Hrun; discriminate|intros; apply raises_ret].
Qed.

(** * Properties of the string helpers of style.ts *)

Section StyleHelpers.
Import Style.

Lemma needsEscape_backSlash : needsEscape backSlash = true.
Proof. reflexivity. Qed.

(** X17. [escapeString] leaves no grave accent and no back slash on its
    own: in its result each of them is the second character of a pair that
    a back slash starts. *)
Theorem escapeString_is_escaped src : Escaped (escapeString src).
Proof.
  induction src as [|char rest IH]; simpl; [constructor|].
  destruct (needsEscape char) eqn:Hchar; by constructor.
Qed.

(** X18. [escapeString] loses nothing: two sources with the same escaped
    form are the same source. *)
Theorem escapeString_injective a b : escapeString a = escapeString b → a = b.
Proof.
  revert b. induction a as [|c a IH]; intros [|d b]; simpl.
  - done.
  - by destruct (needsEscape d).
  - by destruct (needsEscape c).
  - destruct (needsEscape c) eqn:Hc, (needsEscape d) eqn:Hd; intros Heq.
    + injection Heq as -> Heq. f_equal. by apply IH.
    + injection Heq as <- _. by rewrite needsEscape_backSlash in Hd.
    + injection Heq as -> _. by rewrite needsEscape_backSlash in Hc.
    + injection Heq as -> Heq. f_equal. by apply IH.
Qed.

Lemma escapeString_length src :
  (String.length src ≤ String.length (escapeString src))%nat.
Proof.
  induction src as [|c src IH]; simpl; [done|].
  destruct (needsEscape c); simpl; lia.
Qed.

Lemma includes_char_cons s c d :
  includes (String d s) (String c EmptyString) = Ascii.eqb c d || includes s (String c EmptyString).
Proof. cbn [includes startsWith]. by rewrite andb_true_r. Qed.

(** X19. [escapeString] works character by character: it distributes over
    concatenation, and it returns its source unchanged exactly when the
    source has neither a grave accent nor a back slash. *)
Theorem escapeString_by_character a b :
  escapeString (a +:+ b) = escapeString a +:+ escapeString b
  ∧ (escapeString a = a
     ↔ includes a (String graveAccent EmptyString) = false
       ∧ includes a (String backSlash EmptyString) = false).
Proof.
  split.
  - induction a as [|c a IH]; simpl; [done|].
    destruct (needsEscape c); simpl; by rewrite IH.
  - induction a as [|c a IH].
    + done.
    + rewrite !includes_char_cons. cbn [escapeString]. unfold needsEscape.
      rewrite (Ascii.eqb_sym graveAccent c), (Ascii.eqb_sym backSlash c).
      destruct (Ascii.eqb c graveAccent) eqn:Hg; simpl.
      * split; [|by intros [? ?]]. intros Heq. injection Heq as Hc _.
        rewrite <- Hc in Hg. discriminate Hg.
      * destruct (Ascii.eqb c backSlash) eqn:Hb; simpl.
        -- split; [|by intros [? ?]].
           intros Heq. injection Heq as _ Heq.
           apply (f_equal String.length) in Heq. simpl in Heq.
           pose proof (escapeString_length a). lia.
        -- rewrite <- IH. split; [by intros [= ->]|by intros ->].
Qed.

Lemma startsWith_cons b s a p :
  startsWith (String b s) (String a p) = Ascii.eqb a b && startsWith s p.
Proof. reflexivity. Qed.

Lemma replaceAllFrom_skip pattern replacement n s :
  replaceAllFrom pattern replacement n s
  = replaceAllFrom pattern replacement 0 (dropChars n s).
Proof.
  revert s. induction n as [|n IH]; intros [|c s]; simpl; auto.
Qed.

Lemma replaceToken_step c rest :
  replaceToken (String c rest)
  = if startsWith (String c rest) TOKEN_PLACEHOLDER
    then "${token}" +:+ replaceToken (dropChars 8 rest)
    else String c (replaceToken rest).
Proof.
  unfold replaceToken. cbn [replaceAllFrom].
  destruct (startsWith _ _); [|done].
  by rewrite replaceAllFrom_skip.
Qed.

Lemma dropChars_length n s : (String.length (dropChars n s) ≤ String.length s)%nat.
Proof.
  revert s. induction n as [|n IH]; intros [|c s]; simpl; try lia.
  specialize (IH s). lia.
Qed.

(** What the result of [replaceToken] starts with, its source starts with,
    as long as it is nothing the replacement brings in. *)
Lemma replaceToken_startsWith w src :
  includes w "$" = false →
  startsWith (replaceToken src) w = true → startsWith src w = true.
Proof.
  revert src. induction w as [|a w IH]; intros src Hw; [done|].
  rewrite includes_char_cons in Hw. apply orb_false_iff in Hw as [Ha Hw].
  destruct src as [|c rest]; [done|].
  rewrite replaceToken_step. destruct (startsWith (String c rest) _).
  - generalize (replaceToken (dropChars 8 rest)). intros y.
    change ("${token}" +:+ y) with (String "$" ("{token}" +:+ y)).
    cbn [startsWith]. by rewrite (Ascii.eqb_sym a), Ha.
  - cbn [startsWith]. intros Hstart. apply andb_true_iff in Hstart as [-> Hstart].
    by rewrite (IH rest Hw Hstart).
Qed.

Lemma replaceToken_no_placeholder src :
  includes (replaceToken src) TOKEN_PLACEHOLDER = false.
Proof.
  assert (∀ n src, (String.length src ≤ n)%nat →
                   includes (replaceToken src) TOKEN_PLACEHOLDER = false) as Hall;
    [|by apply (Hall (String.length src))].
  clear src. induction n as [|n IH]; intros [|c rest] Hlen; simpl in Hlen;
    try done; try lia.
  rewrite replaceToken_step.
  destruct (startsWith (String c rest) TOKEN_PLACEHOLDER) eqn:Hmatch.
  - assert (includes (replaceToken (dropChars 8 rest)) TOKEN_PLACEHOLDER = false) as Hrest.
    { apply IH. pose proof (dropChars_length 8 rest). lia. }
    revert Hrest. generalize (replaceToken (dropChars 8 rest)). intros y Hy.
    change ("${token}" +:+ y)
      with (String "$" (String "{" (String "t" (String "o" (String "k"
              (String "e" (String "n" (String "}" y)))))))).
    cbn [includes startsWith TOKEN_PLACEHOLDER Ascii.eqb Bool.eqb andb orb]. exact Hy.
  - cbn [includes]. rewrite (IH rest) by lia. rewrite orb_false_r.
    destruct (startsWith (String c (replaceToken rest)) TOKEN_PLACEHOLDER) eqn:Hout;
      [|done].
    change TOKEN_PLACEHOLDER with (String "_" "_TOKEN__") in Hout, Hmatch.
    rewrite startsWith_cons in Hout, Hmatch.
    apply andb_true_iff in Hout as [Hc Hout].
    apply (replaceToken_startsWith "_TOKEN__") in Hout; [|done].
    by rewrite Hc, Hout in Hmatch.
Qed.

(** X20. [replaceToken] leaves no placeholder behind: its result does not
    contain [__TOKEN__] any more. *)
Theorem replaceToken_leaves_no_placeholder src :
  includes (replaceToken src) TOKEN_PLACEHOLDER = false.
Proof. apply replaceToken_no_placeholder. Qed.

(** X21. [replaceToken] returns its source unchanged exactly when the
    source does not contain the placeholder. *)
Theorem replaceToken_fixes_sources_without_placeholder src :
  replaceToken src = src ↔ includes src TOKEN_PLACEHOLDER = false.
Proof.
  split.
  - intros Heq. rewrite <- Heq. apply replaceToken_no_placeholder.
  - induction src as [|c rest IH]; [done|].
    cbn [includes]. intros Hnone. apply orb_false_iff in Hnone as [Hstart Hrest].
    by rewrite replaceToken_step, Hstart, (IH Hrest).
Qed.

Lemma append_cons c a b : String c a +:+ b = String c (a +:+ b).
Proof. reflexivity. Qed.

Lemma append_length a b :
  String.length (a +:+ b) = (String.length a + String.length b)%nat.
Proof.
  induction a as [|c a IH]; [done|].
  rewrite append_cons. cbn [String.length]. by rewrite IH.
Qed.

Lemma append_assoc_3 a b c : (a +:+ b) +:+ c = a +:+ (b +:+ c).
Proof.
  induction a as [|d a IH]; [done|].
  rewrite !append_cons. by rewrite IH.
Qed.

(** Whether a string starts with [p] is decided by its first characters. *)
Lemma startsWith_append x y p :
  (String.length p ≤ String.length x)%nat →
  startsWith (x +:+ y) p = startsWith x p.
Proof.
  revert x. induction p as [|a p IH]; intros [|b x] Hlen; simpl in Hlen;
    try done; try lia.
  rewrite append_cons, !startsWith_cons. rewrite IH by lia. done.
Qed.

(** X22. [replaceToken] replaces from the left: when no placeholder starts
    inside [before], a source made of [before], a placeholder and [after]
    becomes [before], then [${token}], then what [replaceToken] makes of
    [after]. *)
Theorem replaceToken_replaces_leftmost before after :
  includes (before +:+ "__TOKEN_") TOKEN_PLACEHOLDER = false →
  replaceToken (before +:+ TOKEN_PLACEHOLDER +:+ after)
  = before +:+ "${token}" +:+ replaceToken after.
Proof.
  induction before as [|c before IH]; intros Hnone.
  - change ("" +:+ TOKEN_PLACEHOLDER +:+ after)
      with (String "_" (String "_" (String "T" (String "O" (String "K"
              (String "E" (String "N" (String "_" (String "_" after))))))))).
    rewrite replaceToken_step. reflexivity.
  - change (String c before +:+ "__TOKEN_")
      with (String c (before +:+ "__TOKEN_")) in Hnone.
    cbn [includes] in Hnone. apply orb_false_iff in Hnone as [Hstart Hnone].
    change (String c before +:+ TOKEN_PLACEHOLDER +:+ after)
      with (String c (before +:+ TOKEN_PLACEHOLDER +:+ after)).
    rewrite replaceToken_step.
    assert (String c (before +:+ TOKEN_PLACEHOLDER +:+ after)
            = String c (before +:+ "__TOKEN_") +:+ ("_" +:+ after)) as Hsplit.
    { change (String c (before +:+ "__TOKEN_") +:+ ("_" +:+ after))
        with (String c ((before +:+ "__TOKEN_") +:+ ("_" +:+ after))).
      by rewrite append_assoc_3. }
    rewrite Hsplit at 1. rewrite startsWith_append, Hstart.
    + rewrite (IH Hnone). reflexivity.
    + change (String c (before +:+ "__TOKEN_")) with (String c before +:+ "__TOKEN_").
      rewrite append_length. simpl. lia.
Qed.
End StyleHelpers.

(** ** The further properties at sample inputs *)

Section FurtherWitnesses.
Local Existing Instance Spec.collaborators.
Import Sample MoreSamples.




Lemma registration_only_adds_wiring_calls_witness :
  let s := withMethod "foo" true in
  wiring (registerDecorators false 1%positive (onlyProps [("x", field)]) s).2 = wiring s.
Proof.
  intros s.
  apply (proj2 (registration_only_adds_wiring_calls false 1%positive
                  (onlyProps [("x", field)]) s)).
  reflexivity.
Defined.

Lemma tracked_names_carry_track_descriptor_witness :
  let s' := (registerDecorators false 1%positive fullMeta (withMethod "foo" true)).2 in
  ownDescriptor 1%positive "z" s' = Some (internalTrackDecorator "z").
Proof.
  intros s'.
  apply (tracked_names_carry_track_descriptor false 1%positive fullMeta "z"
           (withMethod "foo" true) 1%positive s').
  - vm_compute. reflexivity.
  - compute_done.
Defined.

Lemma wired_fields_carry_wire_descriptor_witness :
  let s' := (registerDecorators false 1%positive fullMeta (withMethod "foo" true)).2 in
  ownDescriptor 1%positive "y" s' = Some (internalWireFieldDecorator "y").
Proof.
  intros s'.
  apply (wired_fields_carry_wire_descriptor false 1%positive fullMeta "y"
           (withMethod "foo" true) 1%positive s').
  - vm_compute. reflexivity.
  - compute_done.
  - compute_done.
Defined.

Lemma public_props_carry_their_descriptor_witness :
  let meta := onlyProps [("x", field); ("v", getter)] in
  let s' := (registerDecorators false 1%positive meta withGetter).2 in
  (PropCompilerDef.config getter = Field →
   ownDescriptor 1%positive "v" s' = Some (createPublicPropertyDescriptor "v"))
  ∧ (PropCompilerDef.config getter ≠ Field →
     ∃ wrapped,
       createPublicAccessorDescriptor "v" (ownDescriptor 1%positive "v" withGetter)
       = inr wrapped
       ∧ ownDescriptor 1%positive "v" s' = Some wrapped).
Proof.
  intros meta s'.
  apply (public_props_carry_their_descriptor false 1%positive meta
           [("x", field); ("v", getter)] "v" getter withGetter 1%positive s').
  - vm_compute. reflexivity.
  - reflexivity.
  - compute_done.
  - repeat constructor.
  - compute_done.
  - compute_done.
Defined.

Lemma methods_and_fields_are_passed_through_witness :
  let s' := (registerDecorators false 1%positive fullMeta (withMethod "foo" true)).2 in
  1%positive = 1%positive
  ∧ DecoratorMeta.apiMethods (getDecoratorsMeta 1%positive s') = ["foo"; "foo"]
  ∧ DecoratorMeta.fields (getDecoratorsMeta 1%positive s') = Entry (Some ["w"]).
Proof.
  intros s'.
  apply (methods_and_fields_are_passed_through false 1%positive fullMeta
           (withMethod "foo" true) 1%positive s').
  vm_compute. reflexivity.
Defined.

Lemma field_declaration_over_own_property_aborts_witness :
  let s := withMethod "foo" true in
  ∃ e s',
    registerDecorators false 1%positive (onlyTrack [("foo", VNumber 1)]) s = (Throw e, s')
    ∧ signedDecoratorToMetaMap s' = signedDecoratorToMetaMap s.
Proof.
  intros s.
  apply (field_declaration_over_own_property_aborts 1%positive
           (onlyTrack [("foo", VNumber 1)]) "foo" s).
  - eexists. vm_compute. reflexivity.
  - right. right. left. unfold declaresTracked. compute_done.
Defined.

Lemma reregistering_an_installed_field_aborts_witness :
  let meta1 := onlyProps [("x", field)] in
  let meta2 := onlyProps [("x", field); ("u", field)] in
  let s1 := (registerDecorators false 1%positive meta1 fresh).2 in
  ∃ e s2,
    registerDecorators false 1%positive meta2 s1 = (Throw e, s2)
    ∧ getDecoratorsMeta 1%positive s2 = resolve meta1.
Proof.
  intros meta1 meta2 s1.
  apply (reregistering_an_installed_field_aborts false 1%positive meta1 meta2 "x"
           fresh 1%positive s1).
  - vm_compute. reflexivity.
  - compute_done.
  - left. exists field. split; [repeat constructor|reflexivity].
Defined.

Lemma name_in_two_field_categories_aborts_witness :
  let meta :=
    RegisterDecoratorMeta.mk None (Some [("x", field)]) (Some [("x", VNumber 1)])
      None None in
  ∃ e s',
    registerDecorators false 1%positive meta fresh = (Throw e, s')
    ∧ signedDecoratorToMetaMap s' = signedDecoratorToMetaMap fresh.
Proof.
  intros meta.
  apply (name_in_two_field_categories_aborts 1%positive meta "x" fresh).
  left. split; [compute_done|]. right. left. unfold declaresTracked. compute_done.
Defined.

Lemma production_methods_only_completes_witness :
  let meta :=
    RegisterDecoratorMeta.mk (Some ["missing"]) None None
      (Some [("foo", wireMethod)]) (Some ["w"]) in
  ∃ s',
    registerDecorators true 1%positive meta withNumber = (Normal 1%positive, s')
    ∧ prototypes s' = prototypes withNumber
    ∧ signedDecoratorToMetaMap s'
      = <[1%positive := resolve meta]> (signedDecoratorToMetaMap withNumber)
    ∧ wiring s'
      = wiring withNumber
        ++ (wiredMethodCall 1%positive withNumber
              <$> default [] (forInEntries <$> RegisterDecoratorMeta.wire meta)).
Proof.
  intros meta.
  apply (production_methods_only_completes 1%positive meta withNumber).
  - reflexivity.
  - reflexivity.
  - repeat constructor.
  - repeat constructor.
Defined.


Lemma dev_methods_and_fields_acceptance_witness :
  let meta := RegisterDecoratorMeta.mk (Some ["foo"]) None None None (Some ["w"]) in
  ∃ s', registerDecorators false 1%positive meta (withMethod "foo" true)
        = (Normal 1%positive, s').
Proof.
  intros meta.
  apply (proj2 (dev_methods_and_fields_acceptance 1%positive meta (withMethod "foo" true)
                  eq_refl eq_refl eq_refl)).
  split; repeat constructor.
Defined.

Lemma set_then_get_decorators_meta_witness :
  let s' := (setDecoratorsMeta 1%positive defaultMeta fresh).2 in
  getDecoratorsMeta 2%positive s' = getDecoratorsMeta 2%positive fresh.
Proof.
  intros s'.
  apply (set_then_get_decorators_meta 1%positive defaultMeta 2%positive fresh).
  discriminate.
Defined.

Lemma production_aborts_come_from_installing_witness :
  let meta := onlyWire [("foo", wireMethod)] in
  let e := Error "raised by the getter" in
  (∃ P, P ∈ installedNames meta
        ∧ (e = TypeError ("Cannot redefine property: " +:+ P)
           ∨ e = TypeError ("Cannot define property " +:+ P
                            +:+ ", object is not extensible")))
  ∨ (∃ name descriptor,
       name ∈ keys (default [] (RegisterDecoratorMeta.publicProps meta))
       ∧ createPublicAccessorDescriptor name descriptor = inl e)
  ∨ (∃ entry s0,
       entry ∈ default [] (RegisterDecoratorMeta.wire meta)
       ∧ isMethodBinding entry
       ∧ ordinaryGet 1%positive (prototype s0 1%positive) entry.1 s0 = inl e).
Proof.
  intros meta e.
  apply (production_aborts_come_from_installing 1%positive meta withRaisingGetter e
           withRaisingGetter).
  vm_compute. reflexivity.
Defined.

Lemma escapeString_injective_witness : "a`b\c" = "a`b\c".
Proof. apply (escapeString_injective "a`b\c" "a`b\c"). reflexivity. Defined.

Lemma replaceToken_replaces_leftmost_witness :
  Style.replaceToken ("a[_" +:+ Style.TOKEN_PLACEHOLDER +:+ "] b[__TOKEN__]")
  = "a[_" +:+ "${token}" +:+ Style.replaceToken "] b[__TOKEN__]".
Proof.
  apply (replaceToken_replaces_leftmost "a[_" "] b[__TOKEN__]"). reflexivity.
Defined.

End FurtherWitnesses.
